(** * xbase: the static clamp layout generator and the schematic template

    A shallow embedding of [ClampStatic.draw_layout]
    (src/xbase/layout/clamp/__init__.py) and of [SchTemplate.add_instance]
    (src/xbase/schematic/sch_template.py).

    Both classes are plugins of the BAG framework.  The framework is not part
    of the repository: its pure queries (routing grid, track manager) are the
    fields of a type class, and its drawing calls are recorded, in call order,
    in the state of a small state-and-exception monad.  Framework calls are
    taken to return normally; the exceptions modelled are the ones the
    repository's own statements raise ([raise], [assert], subscripting,
    [max]/[min] of an empty sequence). *)

From stdpp Require Import base option list list_numbers strings gmap.
From Stdlib Require Import ZArith Lia.

Local Open Scope Z_scope.

(** ** Python run-time behaviour *)

Module Py.

(** The text of an exception; f-strings keep their arguments. *)
Inductive msg :=
| RedoRouting (layer : Z)
    (* f'Redo routing on layer={layer}' *)
| LayerOrder (top_layer used_port_layer : Z)
    (* f'top_layer={top_layer} must be greater than used_port_layer={used_port_layer}' *)
| EmptySequence (fn : string)
    (* '{fn}() arg is an empty sequence' *)
| NamesRequired
    (* 'If module_cls is not provided, both lib_name and cell_name must be defined' *)
| NotSupported.
    (* 'Not currently supported' *)

Inductive exn :=
| AssertionError (m : msg)
| ValueError (m : msg)
| KeyError (key : string)
| IndexError.

(** A computation over a mutable object [S]: the state reached is kept
    when an exception propagates, as it is for a Python object. *)
Definition M (S A : Type) : Type := S → S * (exn + A).

Definition ret {S A} (a : A) : M S A := λ s, (s, inr a).

Definition bind {S A B} (k : A → M S B) (m : M S A) : M S B :=
  λ s, match m s with
       | (s', inl e) => (s', inl e)
       | (s', inr a) => k a s'
       end.

Definition raise {S A} (e : exn) : M S A := λ s, (s, inl e).

Definition modify {S} (f : S → S) : M S unit := λ s, (f s, inr tt).

#[export] Instance M_ret {S} : MRet (M S) := @ret S.
#[export] Instance M_bind {S} : MBind (M S) := @bind S.

(** [assert cond, m] *)
Definition assert {S} (cond : bool) (m : msg) : M S unit :=
  if cond then ret tt else raise (AssertionError m).

(** [d[key]] on a mapping with string keys *)
Definition getitem {S A} (d : gmap string A) (key : string) : M S A :=
  match d !! key with
  | Some a => ret a
  | None => raise (KeyError key)
  end.

(** [r[key]] on a record-like mapping whose entry may be missing *)
Definition getfield {S A} (key : string) (o : option A) : M S A :=
  match o with
  | Some a => ret a
  | None => raise (KeyError key)
  end.

(** [l[i]] for a literal index [i >= 0] *)
Definition index {S A} (l : list A) (i : nat) : M S A :=
  match l !! i with
  | Some a => ret a
  | None => raise IndexError
  end.

(** [max(l)] and [min(l)] on integers *)
Definition max_list (l : list Z) : option Z :=
  match l with
  | [] => None
  | x :: l' => Some (foldl Z.max x l')
  end.

Definition min_list (l : list Z) : option Z :=
  match l with
  | [] => None
  | x :: l' => Some (foldl Z.min x l')
  end.

Definition max {S} (l : list Z) : M S Z :=
  match max_list l with
  | Some z => ret z
  | None => raise (ValueError (EmptySequence "max"))
  end.

Definition min {S} (l : list Z) : M S Z :=
  match min_list l with
  | Some z => ret z
  | None => raise (ValueError (EmptySequence "min"))
  end.

(** [for x in xs: body] *)
Fixpoint for_each {S A} (xs : list A) (body : A → M S unit) : M S unit :=
  match xs with
  | [] => ret tt
  | x :: xs' => body x ;; for_each xs' body
  end.

(** [for x in xs: acc = body(acc, x)], for the names a loop rebinds *)
Fixpoint for_fold {S A B} (xs : list A) (acc : B) (body : B → A → M S B) : M S B :=
  match xs with
  | [] => ret acc
  | x :: xs' => acc' ← body acc x; for_fold xs' acc' body
  end.

(** [range(lo, hi)] *)
Definition range (lo hi : Z) : list Z := seqZ lo (hi - lo).

(** [l * n] on a list: [n] copies of [l], none when [n <= 0] *)
Definition list_mul {A} (l : list A) (n : Z) : list A :=
  concat (replicate (Z.to_nat n) l).

(** truth value of an [Optional[int]] *)
Definition truthy (o : option Z) : bool :=
  match o with
  | None => false
  | Some z => negb (z =? 0)
  end.

(** truth value of a [str] *)
Definition str_truthy (s : string) : bool :=
  match s with
  | EmptyString => false
  | String _ _ => true
  end.

(** What a run guarantees: [Q] on the value and state it returns, [E] on
    the exception and state it raises with. *)
Definition wp {S A} (m : M S A) (Q : A → S → Prop) (E : exn → S → Prop) (s : S) : Prop :=
  match m s with
  | (s', inr a) => Q a s'
  | (s', inl e) => E e s'
  end.



End Py.

Import Py.

(** ** The clamp layout generator *)

Module Clamp.

(** *** Data of the framework (pybag.core, pybag.enum, bag.layout.routing) *)

Inductive Orient2D := Orient_x | Orient_y.
Inductive RoundMode := LESS_EQ | LESS | NEAREST | GREATER_EQ | GREATER | NONE.
Inductive Direction := LOWER | UPPER.
Inductive MinLenMode := MinLen_LOWER | MIDDLE | MinLen_UPPER | MinLen_NONE.

Record BBox := mkBBox { xl : Z; yl : Z; xh : Z; yh : Z }.

Record TrackID := mkTrackID
  { layer_id : Z; base_index : Z; width : Z; num : Z; pitch : Z }.

Record WireArray := mkWireArray { track_id : TrackID; lower : Z; upper : Z }.

Definition LayPurp : Type := string * string.

#[export] Instance Orient2D_eq_dec : EqDecision Orient2D.
Proof. solve_decision. Defined.
#[export] Instance BBox_eq_dec : EqDecision BBox.
Proof. solve_decision. Defined.
#[export] Instance TrackID_eq_dec : EqDecision TrackID.
Proof. solve_decision. Defined.
#[export] Instance WireArray_eq_dec : EqDecision WireArray.
Proof. solve_decision. Defined.

(** *** Technology data: [tech_params['clamp']] *)

(** [ports]: net name, then layer name, to rectangles [(xl, yl, xh, yh)] *)
Definition Ports : Type := gmap string (gmap string (list (Z * Z * Z * Z))).

(** [clamp_info['types'][cell_name]], of a technology that holds the four
    keys; the dictionary whose keys may be absent is [ClampMore.ConfigMap]. *)
Record Config := mkConfig
  { cfg_lib_name : string;
    cfg_cell_name : string;
    cfg_size : Z * Z;
    cfg_ports : Ports }.

(** An entry of [clamp_info['rect_arr_list']].  Every key but [lay_purp]
    is read with [.get] or only on one branch, so every key may be
    missing. *)
Record RectArr := mkRectArr
  { ra_edge_margin : option (gmap string Z);
    ra_spx : option Z;
    ra_spy : option Z;
    ra_w_unit : option Z;
    ra_h_unit : option Z;
    ra_lay_purp : option LayPurp }.

(** [tech_params['clamp']], of a technology that holds the four keys; the
    dictionary whose keys may be absent is [ClampMore.ClampMap], read by
    [ClampMore.draw_layout_tech]. *)
Record ClampInfo := mkClampInfo
  { ci_top_layer : Z;
    ci_used_port_layer : Z;
    ci_types : gmap string Config;
    ci_rect_arr_list : list RectArr }.

(** [self.params]; [tr_widths] and [tr_spaces] are consumed by the track
    manager built in [__init__]. *)
Record Params := mkParams
  { p_lib_name : string;
    p_cell_name : string;
    p_top_layer : option Z }.

(** Parameters handed to [BlackBoxTemplate] *)
Record BlackBox := mkBlackBox
  { bb_lib_name : string;
    bb_cell_name : string;
    bb_top_layer : Z;
    bb_size : Z * Z;
    bb_ports : Ports }.

Record Instance := mkInstance { inst_name : string; master : BlackBox }.

(** *** What the generator does to the layout *)

(** Drawing calls on [TemplateBase], with their arguments. *)
Inductive Effect :=
| AddInstance (inst : Instance)
| SetSizeFromBoundBox (top_layer : Z) (box : BBox) (round_up : bool)
| AddRectArray (lp : LayPurp) (box : BBox) (nx ny spx spy : Z)
| ConnectBBoxToTracks (dir : Direction) (lp : LayPurp) (box : BBox)
    (tid : TrackID) (mode : MinLenMode)
| ConnectWires (warrs : list WireArray)
| ConnectToTracks (warr : WireArray) (tid : TrackID) (mode : MinLenMode)
| AddPin (net : string) (warr : WireArray) (connect : bool)
| AddRect (lp : LayPurp) (box : BBox)
| AddPinPrimitive (net : string) (label : Z) (box : BBox) (hide : bool).
    (* the label is f'{used_port_layer}', kept as the integer *)

(** Marks left at two points of every routed layer, for the statements
    below; they change nothing in the run. *)
Inductive Mark :=
| Window (layer lower upper l_idx r_idx num : Z)
    (* lines 149-151 and 176-180: the window, its snapped ends, and
       [get_num_wires_between(...) + 2] *)
| Tracks (layer : Z) (idx_list : list Z) (plus_tid minus_tid : TrackID).
    (* lines 158/164 and 188/190: the spread list and the two TrackIDs *)

(** The template object and the layout it has drawn so far. *)
Record ClampStatic := mkClampStatic
  { _conn_layer : Z;
    _top_layer : Z;
    sch_params : option (string * string);
    effects : list Effect;
    marks : list Mark }.

(** [__init__] *)
Definition init : ClampStatic :=
  {| _conn_layer := -1; _top_layer := -1; sch_params := None;
     effects := []; marks := [] |}.

Definition set_top_layer (v : Z) : M ClampStatic unit :=
  modify (λ s, {| _conn_layer := _conn_layer s; _top_layer := v;
                  sch_params := sch_params s; effects := effects s;
                  marks := marks s |}).

Definition set_conn_layer (v : Z) : M ClampStatic unit :=
  modify (λ s, {| _conn_layer := v; _top_layer := _top_layer s;
                  sch_params := sch_params s; effects := effects s;
                  marks := marks s |}).

Definition set_sch_params (v : string * string) : M ClampStatic unit :=
  modify (λ s, {| _conn_layer := _conn_layer s; _top_layer := _top_layer s;
                  sch_params := Some v; effects := effects s;
                  marks := marks s |}).

Definition emit (e : Effect) : M ClampStatic unit :=
  modify (λ s, {| _conn_layer := _conn_layer s; _top_layer := _top_layer s;
                  sch_params := sch_params s; effects := effects s ++ [e];
                  marks := marks s |}).

Definition mark (m : Mark) : M ClampStatic unit :=
  modify (λ s, {| _conn_layer := _conn_layer s; _top_layer := _top_layer s;
                  sch_params := sch_params s; effects := effects s;
                  marks := marks s ++ [m] |}).

(** *** The framework *)

(** Queries of the routing grid and the track manager, and the geometry
    the drawing calls return.  Track indices are integers here. *)
Class Host := mkHost
  { (* self.grid, self.grid.tech_info *)
    get_direction : Z → Orient2D;
    get_wire_bounds : Z → Z → Z → Z * Z;
    coord_to_track : Z → Z → RoundMode → Z;
    track_to_coord : Z → Z → Z;
    get_lay_purp_list : Z → list LayPurp;
    (* self._tr_manager *)
    get_width : Z → string → Z;
    get_num_wires_between : Z → string → Z → string → Z → string → Z;
    spread_wires : Z → list string → Z → Z → string * string → list Z;
    (* the placed instance *)
    bound_box : Instance → BBox;
    get_all_port_pins : Instance → string → Z → list BBox;
    (* wires returned by the drawing calls *)
    bbox_to_tracks_warr :
      Direction → LayPurp → BBox → TrackID → MinLenMode → WireArray;
    connected_warrs : list WireArray → list WireArray;
    to_tracks_warr : WireArray → TrackID → MinLenMode → WireArray }.

(** *** [ClampStatic.draw_layout] *)

Section Generator.
Context `{Host}.

Definition vdd_idx : nat := 0.
Definition vss_idx : nat := 1.
Definition num_sig : Z := 2.

(** Drawing calls: recorded, then answered by the framework. *)
Definition add_instance (m : BlackBox) (name : string) : M ClampStatic Instance :=
  let inst := mkInstance name m in
  emit (AddInstance inst) ;; mret inst.

Definition connect_bbox_to_tracks (dir : Direction) (lp : LayPurp) (box : BBox)
    (tid : TrackID) (mode : MinLenMode) : M ClampStatic WireArray :=
  emit (ConnectBBoxToTracks dir lp box tid mode) ;;
  mret (bbox_to_tracks_warr dir lp box tid mode).

Definition connect_wires (warrs : list WireArray) : M ClampStatic (list WireArray) :=
  emit (ConnectWires warrs) ;; mret (connected_warrs warrs).

Definition connect_to_tracks (warr : WireArray) (tid : TrackID)
    (mode : MinLenMode) : M ClampStatic WireArray :=
  emit (ConnectToTracks warr tid mode) ;; mret (to_tracks_warr warr tid mode).

(** Lines 95-115: the body of [for rect_arr in rect_arr_list]. *)
Definition draw_rect_arr (bbox : BBox) (rect_arr : RectArr) : M ClampStatic unit :=
  let edge_margin := default ∅ (ra_edge_margin rect_arr) in
  let rect_xl := xl bbox + default 0 (edge_margin !! "xl") in
  let rect_xh := xh bbox + default 0 (edge_margin !! "xh") in
  let rect_yl := yl bbox + default 0 (edge_margin !! "yl") in
  let rect_yh := yh bbox + default 0 (edge_margin !! "yh") in
  let spx := default 0 (ra_spx rect_arr) in
  '(num_x, rect_xh) ←
    (if spx =? 0 then mret (1, rect_xh)
     else w_unit ← getfield "w_unit" (ra_w_unit rect_arr);
          mret ((rect_xh - rect_xl - w_unit) / spx + 1, rect_xl + w_unit));
  let spy := default 0 (ra_spy rect_arr) in
  '(num_y, rect_yh) ←
    (if spy =? 0 then mret (1, rect_yh)
     else h_unit ← getfield "h_unit" (ra_h_unit rect_arr);
          mret ((rect_yh - rect_yl - h_unit) / spy + 1, rect_yl + h_unit));
  lp ← getfield "lay_purp" (ra_lay_purp rect_arr);
  emit (AddRectArray lp (mkBBox rect_xl rect_yl rect_xh rect_yh) num_x num_y spx spy).

(** Lines 176-191: the body of [for _layer in range(tr_layer + 1, port_layer + 1)];
    the loop rebinds [plus_port] and [minus_port]. *)
Definition route_up (ports : WireArray * WireArray) (_layer : Z)
    : M ClampStatic (WireArray * WireArray) :=
  let '(plus_port, minus_port) := ports in
  _lower ← Py.min [lower plus_port; lower minus_port];
  _upper ← Py.max [upper plus_port; upper minus_port];
  let _l_idx := coord_to_track _layer _lower GREATER_EQ in
  let _r_idx := coord_to_track _layer _upper LESS_EQ in
  let _num := get_num_wires_between _layer "sup" _l_idx "sup" _r_idx "sup" + 2 in
  mark (Window _layer _lower _upper _l_idx _r_idx _num) ;;
  (if _num <? num_sig then raise (ValueError (RedoRouting _layer)) else mret tt) ;;
  let _n := _num / num_sig in
  let _idx_list :=
    spread_wires _layer (list_mul (list_mul ["sup"] num_sig) _n) _l_idx _r_idx
      ("sup", "sup") in
  i1 ← index _idx_list 1;
  i0 ← index _idx_list 0;
  let _p := (i1 - i0) * num_sig in
  let w_sup := get_width _layer "sup" in
  i_vdd ← index _idx_list vdd_idx;
  let plus_tid := mkTrackID _layer i_vdd w_sup _n _p in
  plus_port ← connect_to_tracks plus_port plus_tid MIDDLE;
  i_vss ← index _idx_list vss_idx;
  let minus_tid := mkTrackID _layer i_vss w_sup _n _p in
  mark (Tracks _layer _idx_list plus_tid minus_tid) ;;
  minus_port ← connect_to_tracks minus_port minus_tid MIDDLE;
  mret (plus_port, minus_port).

(** Lines 130-171: the first hop, from the pin rectangles on
    [used_port_layer] to one wire per net on [used_port_layer + 1]. *)
Definition first_hop (used_port_layer : Z) (hm_lp : LayPurp)
    (vdd_hm vss_hm : list BBox) : M ClampStatic (WireArray * WireArray) :=
  let tr_layer := used_port_layer + 1 in
  let w_sup_vm := get_width tr_layer "sup" in
  let '(bound_l, bound_h) := get_wire_bounds tr_layer 0 w_sup_vm in
  let ext := (bound_h - bound_l) / 2 in
  '(hm_lower, hm_upper) ←
    (if decide (get_direction used_port_layer = Orient_y) then
       hm_lower ← Py.max (yl <$> vss_hm ++ vdd_hm);
       hm_upper ← Py.min (yh <$> vss_hm ++ vdd_hm);
       mret (hm_lower + ext, hm_upper - ext)
     else
       hm_lower ← Py.max (xl <$> vss_hm ++ vdd_hm);
       hm_upper ← Py.min (xh <$> vss_hm ++ vdd_hm);
       mret (hm_lower + ext, hm_upper - ext));
  let vm_l_idx := coord_to_track tr_layer hm_lower GREATER_EQ in
  let vm_r_idx := coord_to_track tr_layer hm_upper LESS_EQ in
  let vm_num := get_num_wires_between tr_layer "sup" vm_l_idx "sup" vm_r_idx "sup" + 2 in
  mark (Window tr_layer hm_lower hm_upper vm_l_idx vm_r_idx vm_num) ;;
  (if vm_num <? num_sig then raise (ValueError (RedoRouting tr_layer)) else mret tt) ;;
  let _n := vm_num / num_sig in
  let vm_idx_list :=
    spread_wires tr_layer (list_mul (list_mul ["sup"] num_sig) _n) vm_l_idx vm_r_idx
      ("sup", "sup") in
  i1 ← index vm_idx_list 1;
  i0 ← index vm_idx_list 0;
  let _p := (i1 - i0) * num_sig in
  i_vdd ← index vm_idx_list vdd_idx;
  let plus_vm_tid := mkTrackID tr_layer i_vdd w_sup_vm _n _p in
  plus_vm ← for_fold vdd_hm [] (λ plus_vm bbox,
    warr ← connect_bbox_to_tracks LOWER hm_lp bbox plus_vm_tid MIDDLE;
    mret (plus_vm ++ [warr]));
  i_vss ← index vm_idx_list vss_idx;
  let minus_vm_tid := mkTrackID tr_layer i_vss w_sup_vm _n _p in
  mark (Tracks tr_layer vm_idx_list plus_vm_tid minus_vm_tid) ;;
  minus_vm ← for_fold vss_hm [] (λ minus_vm bbox,
    warr ← connect_bbox_to_tracks LOWER hm_lp bbox minus_vm_tid MIDDLE;
    mret (minus_vm ++ [warr]));
  plus_warrs ← connect_wires plus_vm;
  plus_port ← index plus_warrs 0;
  minus_warrs ← connect_wires minus_vm;
  minus_port ← index minus_warrs 0;
  mret (plus_port, minus_port).

(** Lines 131-133: half the span of a supply wire on the first routed
    layer. *)
Definition sup_ext (used_port_layer : Z) : Z :=
  let tr_layer := used_port_layer + 1 in
  let '(bound_l, bound_h) := get_wire_bounds tr_layer 0 (get_width tr_layer "sup") in
  (bound_h - bound_l) / 2.

(** Lines 136-138 and 143-144: the overlap of all pin extents, [None] when
    there is no pin. *)
Definition overlap_window (used_port_layer : Z) (vdd_hm vss_hm : list BBox)
    : option (Z * Z) :=
  if decide (get_direction used_port_layer = Orient_y) then
    lo ← max_list (yl <$> vss_hm ++ vdd_hm);
    hi ← min_list (yh <$> vss_hm ++ vdd_hm);
    Some (lo, hi)
  else
    lo ← max_list (xl <$> vss_hm ++ vdd_hm);
    hi ← min_list (xh <$> vss_hm ++ vdd_hm);
    Some (lo, hi).

(** Lines 119-194: the routing, from the pin rectangles to the two pins
    on [port_layer]. *)
Definition route_supplies (used_port_layer port_layer : Z) (hm_lp : LayPurp)
    (vdd_hm vss_hm : list BBox) : M ClampStatic unit :=
  let tr_layer := used_port_layer + 1 in
  ports ← first_hop used_port_layer hm_lp vdd_hm vss_hm;
  '(plus_port, minus_port) ←
    (if tr_layer <? port_layer then
       for_fold (range (tr_layer + 1) (port_layer + 1)) ports route_up
     else mret ports);
  emit (AddPin "VDD" plus_port true) ;;
  emit (AddPin "VSS" minus_port true).

(** Lines 64-67: [self.params.get('top_layer')], replaced by the
    technology value when it is falsy. *)
Definition resolve_top_layer (params : Params) (clamp_info : ClampInfo) : Z :=
  let _top_layer := p_top_layer params in
  if negb (truthy _top_layer) then ci_top_layer clamp_info
  else default 0 _top_layer.

(** Lines 57-206, on technology data that hold every key. *)
Definition draw_layout (params : Params) (clamp_info : ClampInfo) : M ClampStatic unit :=
  let lib_name := p_lib_name params in
  let cell_name := p_cell_name params in
  (* --- Placement --- *)
  let top_layer := resolve_top_layer params clamp_info in
  set_top_layer top_layer ;;
  let port_layer := top_layer in
  set_conn_layer port_layer ;;
  let used_port_layer := ci_used_port_layer clamp_info in
  assert (used_port_layer <? port_layer) (LayerOrder top_layer used_port_layer) ;;
  config ← getitem (ci_types clamp_info) cell_name;
  let static_lib := cfg_lib_name config in
  let static_cell := cfg_cell_name config in
  let size := cfg_size config in
  let ports := cfg_ports config in
  let master := mkBlackBox static_lib static_cell used_port_layer size ports in
  inst ← add_instance master "XINST";
  let bbox := bound_box inst in
  emit (SetSizeFromBoundBox port_layer bbox true) ;;
  for_each (ci_rect_arr_list clamp_info) (draw_rect_arr bbox) ;;
  (* --- Routing --- *)
  let vdd_hm := get_all_port_pins inst "VDD" used_port_layer in
  let vss_hm := get_all_port_pins inst "VSS" used_port_layer in
  hm_lp ← index (get_lay_purp_list used_port_layer) 0;
  route_supplies used_port_layer port_layer hm_lp vdd_hm vss_hm ;;
  let nc_hm := get_all_port_pins inst "NC" used_port_layer in
  for_each nc_hm (λ bbox,
    emit (AddRect hm_lp bbox) ;;
    emit (AddPinPrimitive "NC" used_port_layer bbox true)) ;;
  set_sch_params (lib_name, cell_name).

End Generator.

(** *** A concrete framework, to run the generator

    A uniform grid: on every layer, track [i] lies at coordinate [10 * i]
    and a wire of width [w] on it covers [10 * i - 2 * w, 10 * i + 2 * w];
    even layers run along x, odd layers along y. *)

Definition ceil_div (a b : Z) : Z := - ((- a) / b).

Definition uniform_coord_to_track (coord : Z) (mode : RoundMode) : Z :=
  match mode with
  | LESS_EQ => coord / 10
  | LESS => (coord - 1) / 10
  | GREATER_EQ => ceil_div coord 10
  | GREATER => ceil_div (coord + 1) 10
  | NEAREST | NONE => (coord + 5) / 10
  end.

Definition uniform_spread (n lo hi : Z) : list Z :=
  (λ i, lo + i * ((hi - lo) / Z.max 1 (n - 1))) <$> seqZ 0 n.

Definition to_bbox (r : Z * Z * Z * Z) : BBox :=
  let '(a, b, c, d) := r in mkBBox a b c d.

Definition uniform_pins (inst : Instance) (net : string) (layer : Z) : list BBox :=
  to_bbox <$> default [] (bb_ports (master inst) !! net ≫= (.!! "M")).

Definition uniform_merge (warrs : list WireArray) : list WireArray :=
  match warrs with
  | [] => []
  | w :: ws =>
      [mkWireArray (track_id w)
         (foldl Z.min (lower w) (lower <$> ws))
         (foldl Z.max (upper w) (upper <$> ws))]
  end.

Definition uniform_dir (layer : Z) : Orient2D :=
  if Z.even layer then Orient_x else Orient_y.

Definition uniform : Host :=
  {| get_direction := uniform_dir;
     get_wire_bounds := λ _ idx w, (10 * idx - 2 * w, 10 * idx + 2 * w);
     coord_to_track := λ _ coord mode, uniform_coord_to_track coord mode;
     track_to_coord := λ _ idx, 10 * idx;
     get_lay_purp_list := λ _, [("metal", "drawing")];
     get_width := λ _ _, 1;
     get_num_wires_between := λ _ _ lo _ hi _, hi - lo - 1;
     spread_wires := λ _ tags lo hi _, uniform_spread (Z.of_nat (length tags)) lo hi;
     bound_box := λ inst, mkBBox 0 0 (bb_size (master inst)).1 (bb_size (master inst)).2;
     get_all_port_pins := uniform_pins;
     bbox_to_tracks_warr := λ _ _ box tid _,
       match uniform_dir (layer_id tid) with
       | Orient_y => mkWireArray tid (yl box) (yh box)
       | Orient_x => mkWireArray tid (xl box) (xh box)
       end;
     connected_warrs := uniform_merge;
     to_tracks_warr := λ warr tid _,
       let t := track_id warr in
       mkWireArray tid (10 * base_index t)
         (10 * (base_index t + (num t - 1) * pitch t)) |}.

(** A clamp whose pins on layer 2 run across the whole cell. *)
Definition ex_ports : Ports :=
  {[ "VDD" := {[ "M" := [(0, 10, 100, 20); (0, 40, 100, 50)] ]};
     "VSS" := {[ "M" := [(0, 60, 100, 70)] ]} ]}.

Definition ex_vdd : list BBox := [mkBBox 0 10 100 20; mkBBox 0 40 100 50].

Definition ex_vss : list BBox := [mkBBox 0 60 100 70].

Definition ex_config : Config :=
  {| cfg_lib_name := "clamp_lib"; cfg_cell_name := "clamp_core";
     cfg_size := (100, 100); cfg_ports := ex_ports |}.

Definition ex_rect_arr : RectArr :=
  {| ra_edge_margin := Some {[ "xl" := 5; "xh" := -5 ]};
     ra_spx := Some 0; ra_spy := Some 20;
     ra_w_unit := Some 10; ra_h_unit := Some 10;
     ra_lay_purp := Some ("nwell", "drawing") |}.

Definition ex_clamp_info (used top : Z) : ClampInfo :=
  {| ci_top_layer := top; ci_used_port_layer := used;
     ci_types := {[ "clamp" := ex_config ]};
     ci_rect_arr_list := [ex_rect_arr] |}.

Definition ex_params (top : option Z) : Params :=
  {| p_lib_name := "xbase"; p_cell_name := "clamp"; p_top_layer := top |}.

(** *** Reading a layout *)

(** the layout after the drawing calls [es] *)
Definition add_effects (es : list Effect) (s : ClampStatic) : ClampStatic :=
  {| _conn_layer := _conn_layer s; _top_layer := _top_layer s;
     sch_params := sch_params s; effects := effects s ++ es;
     marks := marks s |}.

(** [(layer, num)] of every window sized so far, in order *)
Definition windows (s : ClampStatic) : list (Z * Z) :=
  omap (λ m, match m with
             | Window layer _ _ _ _ n => Some (layer, n)
             | Tracks _ _ _ _ => None
             end) (marks s).

(** the layers that got their two TrackIDs, in order *)
Definition routed (s : ClampStatic) : list Z :=
  omap (λ m, match m with
             | Tracks layer _ _ _ => Some layer
             | Window _ _ _ _ _ _ => None
             end) (marks s).

(** the pins published with [add_pin], in order *)
Definition pins (s : ClampStatic) : list (string * WireArray) :=
  omap (λ e, match e with
             | AddPin net warr _ => Some (net, warr)
             | _ => None
             end) (effects s).

(** [e.get(key, 0)] on the optional [edge_margin] mapping *)
Definition margin (rect_arr : RectArr) (key : string) : Z :=
  default 0 (default ∅ (ra_edge_margin rect_arr) !! key).


(** a sized window on a layer of [lo..hi] with room for both nets *)
Definition feasible (lo hi : Z) (w : Z * Z) : Prop :=
  lo ≤ w.1 ≤ hi ∧ 2 ≤ w.2.

(** How a run may stop: with no pin published and, when the exception is
    'Redo routing on layer=l', a last window on [l] that is too small. *)
Definition stopped (lo hi : Z) (e : exn) (s : ClampStatic) : Prop :=
  pins s = [] ∧
  match e with
  | ValueError (RedoRouting l) =>
      ∃ ws n, windows s = ws ++ [(l, n)] ∧ n < 2 ∧ lo ≤ l ≤ hi ∧
              Forall (feasible lo hi) ws
  | _ => Forall (feasible lo hi) (windows s)
  end.

(** every exception but a failed [assert] *)
Definition not_assertion (e : exn) : Prop :=
  match e with
  | AssertionError _ => False
  | _ => True
  end.





(** The instance [draw_layout] places for a cell type (lines 84-88). *)
Definition placed (used_port_layer : Z) (config : Config) : Instance :=
  mkInstance "XINST"
    (mkBlackBox (cfg_lib_name config) (cfg_cell_name config) used_port_layer
       (cfg_size config) (cfg_ports config)).






End Clamp.

(** ** The schematic template *)

Module Sch.

(** Calls on the design database ([bag.design.module.Module]), with their
    arguments. *)
Inductive Call :=
| ArrayInstance (inst_name : string) (inst_name_list : list string) (dx dy : Z)
| RenameInstance (old_name new_name : string)
| ReplaceInstanceMaster (inst_name lib_name cell_name : string)
| ReconnectInstance (inst_name : string) (conns : list (string * string))
| RemoveInstance (inst_name : string)
| RemovePin (pin : string).

Record SchTemplate := mkSchTemplate
  { prev_name : string;        (* name of reference cell *)
    prev_pins : list string;   (* names of reference pins *)
    calls : list Call }.

(** [__init__] *)
Definition init : SchTemplate :=
  {| prev_name := "XINST"; prev_pins := ["IN"; "OUT"; "VSUP"]; calls := [] |}.

Definition call (c : Call) : M SchTemplate unit :=
  modify (λ s, {| prev_name := prev_name s; prev_pins := prev_pins s;
                  calls := calls s ++ [c] |}).

Definition get_prev_name : M SchTemplate string := λ s, (s, inr (prev_name s)).

Definition get_prev_pins : M SchTemplate (list string) := λ s, (s, inr (prev_pins s)).

(** [SchTemplate.add_instance]; [conns] and [module_cls] default to [None],
    the names to [''] and the offsets to [0]. *)
Definition add_instance (inst_name lib_name cell_name : string)
    (conns : option (list (string * string))) (dx dy : Z)
    (module_cls : option string) : M SchTemplate unit :=
  let conns := match conns with Some (c :: cs) => c :: cs | _ => [] end in
  (if negb (bool_decide (is_Some module_cls)) then
     if negb (str_truthy lib_name) || negb (str_truthy cell_name)
     then raise (ValueError NamesRequired)
     else mret tt
   else mret tt) ;;
  prev_name ← get_prev_name;
  (* Trick to move almost 0, 0 *)
  let dx := if (dx =? 0) && (dy =? 0) then 1 else dx in
  (* array original cell, avoiding name reuse *)
  call (ArrayInstance prev_name ["X_0"; inst_name] dx dy) ;;
  call (RenameInstance "X_0" prev_name) ;;
  (* replace instance master *)
  (if bool_decide (is_Some module_cls) then raise (ValueError NotSupported)
   else call (ReplaceInstanceMaster inst_name lib_name cell_name)) ;;
  (* reconnect instance *)
  match conns with
  | _ :: _ => call (ReconnectInstance inst_name conns)
  | [] => mret tt
  end.

(** [SchTemplate.post_design] *)
Definition post_design : M SchTemplate unit :=
  call (RemoveInstance "XINST") ;;
  pins ← get_prev_pins;
  for_each pins (λ pin, call (RemovePin pin)).

End Sch.

(** ** The rest of the schematic template *)

Module Names.
Import Stdlib.Strings.Ascii.

(** [s.split('__')]: the pieces between the occurrences of ['__'], found
    from the left and not overlapping. *)
Definition dunder_at (c c' : Ascii.ascii) : bool :=
  Ascii.eqb c "_"%char && Ascii.eqb c' "_"%char.

Definition cons_first (c : Ascii.ascii) (pieces : list string) : list string :=
  match pieces with
  | p :: ps => String c p :: ps
  | [] => [String c ""]
  end.

Fixpoint split (s : string) : list string :=
  match s with
  | "" => [""]
  | String c s' =>
      match s' with
      | String c' rest =>
          if dunder_at c c' then "" :: split rest
          else cons_first c (split s')
      | "" => cons_first c (split s')
      end
  end.

(** ['__'.join(pieces)] *)
Fixpoint join (pieces : list string) : string :=
  match pieces with
  | [] => ""
  | p :: ps =>
      match ps with
      | [] => p
      | _ :: _ => p +:+ "__" +:+ join ps
      end
  end.

(** ['__' in s] *)
Fixpoint has_dunder (s : string) : bool :=
  match s with
  | "" => false
  | String c s' =>
      match s' with
      | String c' _ => dunder_at c c' || has_dunder s'
      | "" => false
      end
  end.

(** [l[-1]] and [l[0]] *)
Definition index_last {A} (l : list A) : exn + A :=
  match last l with
  | Some a => inr a
  | None => inl IndexError
  end.

Definition index_first {A} (l : list A) : exn + A :=
  match head l with
  | Some a => inr a
  | None => inl IndexError
  end.

(** [SchTemplate.get_master_basename], of the name of the class *)
Definition get_master_basename (cls_name : string) : exn + string :=
  index_last (split cls_name).

(** [pathlib] and the file system, and [DesignOutput] of pybag.enum, are
    outside the repository. *)
Class Files := mkFiles
  { Path : Type;
    parent : Path → Path;
    div : Path → string → Path;           (* path / name *)
    with_name : Path → string → Path;
    is_file : Path → bool;
    DesignOutput : Type;
    DesignOutput_eq_dec : EqDecision DesignOutput;
    extension : DesignOutput → string;
    fallback_model_type : DesignOutput → DesignOutput }.

#[export] Existing Instance DesignOutput_eq_dec.

Section ModelPath.
Context `{Files}.

(** the file [get_model_path] looks for first *)
Definition model_file (work_dir : Path) (lib_name basename : string)
    (output_type : DesignOutput) : Path :=
  div (div (div (div (div work_dir lib_name) "src") lib_name) "schematic/models")
    (basename +:+ "." +:+ extension output_type).

(** [SchTemplate.get_model_path]; [view_name] is not used. *)
Definition get_model_path (cls_name : string) (_netlist_dir : Path)
    (output_type : DesignOutput) : exn + Path :=
  match get_master_basename cls_name with
  | inl e => inl e
  | inr basename =>
      let file_name := basename +:+ "." +:+ extension output_type in
      let work_dir := parent (parent (parent (parent (parent _netlist_dir)))) in
      match index_first (split cls_name) with
      | inl e => inl e
      | inr lib_name =>
          let path :=
            div (div (div (div (div work_dir lib_name) "src") lib_name)
                   "schematic/models") file_name in
          if negb (is_file path) then
            let fallback_type := fallback_model_type output_type in
            if negb (bool_decide (fallback_type = output_type)) then
              let test_path :=
                with_name path (basename +:+ "." +:+ extension fallback_type) in
              if is_file test_path then inr test_path else inr path
            else inr path
          else inr path
      end
  end.

End ModelPath.

End Names.

Module Mos.
Import Sch.

(** [MOSType] is declared in xbase/layout/enum.py, which is not among the
    sources: its members, its lookup by name [MOSType[name]] and [str] are
    taken as given. *)
Class MOSTypes := mkMOSTypes
  { MOSType : Type;
    MOSType_eq_dec : EqDecision MOSType;
    nch : MOSType;
    pch : MOSType;
    member : string → option MOSType;
    mos_str : MOSType → string }.

#[export] Existing Instance MOSType_eq_dec.

(** What [add_transistor] raises: its own [ValueError], whose arguments are
    the text 'Unsupported mos_type for add_transistor: ' and
    [str(mos_type)], or what the lookup and [add_instance] raise. *)
Inductive mos_exn :=
| Unsupported (mos_type : string)
| Raised (e : exn).

Section Transistor.
Context `{MOSTypes}.

(** the cell of a transistor master (lines 160-166) *)
Definition mos_cell (mos_type : MOSType) (stack : bool) : option string :=
  if decide (mos_type = nch) then
    Some (if stack then "nmos4_stack" else "nmos4_standard")
  else if decide (mos_type = pch) then
    Some (if stack then "pmos4_stack" else "pmos4_standard")
  else None.

(** [SchTemplate.add_transistor]; [mos_type] is a name or a member. *)
Definition add_transistor (inst_name : string) (mos_type : string + MOSType)
    (stack : bool) (conns : option (list (string * string))) (dx dy : Z)
    (s : SchTemplate) : SchTemplate * (mos_exn + unit) :=
  let conns := match conns with Some (c :: cs) => c :: cs | _ => [] end in
  match (match mos_type with
         | inl name =>
             match member name with
             | Some t => inr t
             | None => inl (KeyError name)
             end
         | inr t => inr t
         end) with
  | inl e => (s, inl (Raised e))
  | inr mos_type =>
      let lib_name := if stack then "xbase" else "BAG_prim" in
      match mos_cell mos_type stack with
      | None => (s, inl (Unsupported (mos_str mos_type)))
      | Some cell_name =>
          match add_instance inst_name lib_name cell_name (Some conns) dx dy None s with
          | (s', inl e) => (s', inl (Raised e))
          | (s', inr tt) => (s', inr tt)
          end
      end
  end.

(** The templates a generator can build: [__init__], then calls of
    [add_instance] and [add_transistor], whatever their outcome. *)
Inductive built : SchTemplate → Prop :=
| built_init : built init
| built_instance inst_name lib_name cell_name conns dx dy module_cls s :
    built s →
    built (add_instance inst_name lib_name cell_name conns dx dy module_cls s).1
| built_transistor inst_name mos_type stack conns dx dy s :
    built s →
    built (add_transistor inst_name mos_type stack conns dx dy s).1.

End Transistor.

(** The calls of an [add_instance] that returns: the reference instance
    arrayed and renamed back, the new instance given its master, and
    reconnected when [conns] is not empty. *)
Definition added (prev_name inst_name lib_name cell_name : string)
    (conns : option (list (string * string))) (dx dy : Z) : list Call :=
  [ArrayInstance prev_name ["X_0"; inst_name]
     (if (dx =? 0) && (dy =? 0) then 1 else dx) dy;
   RenameInstance "X_0" prev_name;
   ReplaceInstanceMaster inst_name lib_name cell_name] ++
  match conns with
  | Some (c :: cs) => [ReconnectInstance inst_name (c :: cs)]
  | _ => []
  end.

(** the template after more calls on the design database *)
Definition extend (cs : list Call) (s : SchTemplate) : SchTemplate :=
  {| prev_name := prev_name s; prev_pins := prev_pins s; calls := calls s ++ cs |}.

(** A call that leaves the placeholder ['XINST'] in place: arraying takes
    it as the reference, with an offset that is not [(0, 0)]; renaming
    gives its name back; nothing is removed. *)
Definition keeps_placeholder (c : Call) : Prop :=
  match c with
  | ArrayInstance ref names dx dy =>
      ref = "XINST" ∧ (∃ n, names = ["X_0"; n]) ∧ (dx, dy) ≠ (0, 0)
  | RenameInstance old new => old = "X_0" ∧ new = "XINST"
  | ReplaceInstanceMaster _ _ _ | ReconnectInstance _ _ => True
  | RemoveInstance _ | RemovePin _ => False
  end.

(** The four members of [MOSType], to run [add_transistor]. *)
Inductive mos := Mnch | Mpch | Mptap | Mntap.

#[export] Instance mos_eq_dec : EqDecision mos.
Proof. solve_decision. Defined.

Definition mos_types : MOSTypes :=
  {| MOSType := mos;
     nch := Mnch;
     pch := Mpch;
     member := λ name,
       if String.eqb name "nch" then Some Mnch
       else if String.eqb name "pch" then Some Mpch
       else if String.eqb name "ptap" then Some Mptap
       else if String.eqb name "ntap" then Some Mntap
       else None;
     mos_str := λ t,
       match t with
       | Mnch => "MOSType.nch" | Mpch => "MOSType.pch"
       | Mptap => "MOSType.ptap" | Mntap => "MOSType.ntap"
       end |}.

End Mos.

(** ** More readings of a layout *)

Module ClampMore.
Import Clamp.

(** The key a rectangle-array spec lacks, in the order [draw_layout] reads
    them: [w_unit] when [spx] is not 0, [h_unit] when [spy] is not 0, then
    [lay_purp]. *)
Definition missing_key (rect_arr : RectArr) : option string :=
  if negb (default 0 (ra_spx rect_arr) =? 0) && negb (bool_decide (is_Some (ra_w_unit rect_arr)))
  then Some "w_unit"
  else if negb (default 0 (ra_spy rect_arr) =? 0) && negb (bool_decide (is_Some (ra_h_unit rect_arr)))
  then Some "h_unit"
  else if negb (bool_decide (is_Some (ra_lay_purp rect_arr))) then Some "lay_purp"
  else None.

(** the call [e] draws the spec [rect_arr]: its layer-purpose pair and its
    two pitches *)
Definition draws (rect_arr : RectArr) (e : Effect) : Prop :=
  match e with
  | AddRectArray lp _ _ _ sx sy =>
      ra_lay_purp rect_arr = Some lp ∧
      sx = default 0 (ra_spx rect_arr) ∧ sy = default 0 (ra_spy rect_arr)
  | _ => False
  end.

(** the calls that publish the unconnected rectangles [boxes] *)
Definition nc_calls (lp : LayPurp) (used_port_layer : Z) (boxes : list BBox)
    : list Effect :=
  boxes ≫= λ b, [AddRect lp b; AddPinPrimitive "NC" used_port_layer b true].

(** a [connect_to_tracks] call with [MinLenMode.MIDDLE] *)
Definition hop_call (e : Effect) : Prop :=
  match e with
  | ConnectToTracks _ _ MIDDLE => True
  | _ => False
  end.

(** A layout with both layer attributes at [v], no schematic parameters
    and no pin. *)
Definition unpublished (v : Z) (s : ClampStatic) : Prop :=
  _conn_layer s = v ∧ _top_layer s = v ∧ sch_params s = None ∧ pins s = [].

(** A layout with both layer attributes at [v], the schematic parameters
    [names], and exactly the pins VDD and VSS. *)
Definition completed (v : Z) (names : string * string) (s : ClampStatic) : Prop :=
  _conn_layer s = v ∧ _top_layer s = v ∧ sch_params s = Some names ∧
  ∃ plus minus, pins s = [("VDD", plus); ("VSS", minus)].

(** [d.get(key, 0)], then the row of an axis: low edge [lo], high edge
    [hi], unit size [unit], pitch [sp > 0], count [n]: the last unit ends
    at or before [hi], and one more would pass it. *)
Definition row_fits (lo hi unit sp n : Z) : Prop :=
  n = (hi - lo - unit) / sp + 1 ∧
  lo + (n - 1) * sp + unit ≤ hi < lo + n * sp + unit ∧
  (1 ≤ n ↔ unit ≤ hi - lo).

Section Hops.
Context `{Host}.


(** The drawing calls of the first hop: one [connect_bbox_to_tracks] per
    VDD rectangle, then one per VSS rectangle, then one [connect_wires] per
    net on the wires these calls returned. *)
Definition first_hop_calls (lp : LayPurp) (vdd_hm vss_hm : list BBox)
    (plus_tid minus_tid : TrackID) : list Effect :=
  ((λ b, ConnectBBoxToTracks LOWER lp b plus_tid MIDDLE) <$> vdd_hm) ++
  ((λ b, ConnectBBoxToTracks LOWER lp b minus_tid MIDDLE) <$> vss_hm) ++
  [ConnectWires ((λ b, bbox_to_tracks_warr LOWER lp b plus_tid MIDDLE) <$> vdd_hm);
   ConnectWires ((λ b, bbox_to_tracks_warr LOWER lp b minus_tid MIDDLE) <$> vss_hm)].



End Hops.

(** *** The technology mappings, key by key

    [ClampInfo] and [Config] above are technology data that hold every
    key.  The mappings [draw_layout] reads are dictionaries:
    [tech_params['clamp']], [clamp_info[...]] and [config[...]] raise
    [KeyError] on a key that is absent, at the line that reads it. *)

(** [clamp_info['types'][cell_name]] as a dictionary *)
Record ConfigMap := mkConfigMap
  { cm_lib_name : option string;
    cm_cell_name : option string;
    cm_size : option (Z * Z);
    cm_ports : option Ports }.

(** [tech_params['clamp']] as a dictionary *)
Record ClampMap := mkClampMap
  { cl_top_layer : option Z;
    cl_used_port_layer : option Z;
    cl_types : option (gmap string ConfigMap);
    cl_rect_arr_list : option (list RectArr) }.



(** Lines 64-67 without the lookup failing: the top layer, when the
    parameter is truthy or the technology holds the key. *)
Definition tech_top_layer (params : Params) (clamp : ClampMap) : option Z :=
  if negb (truthy (p_top_layer params)) then cl_top_layer clamp
  else Some (default 0 (p_top_layer params)).

(** A key that [draw_layout] reads and the dictionaries lack, in a run
    that gets to read it. *)
Definition absent_key (params : Params) (tech_clamp : option ClampMap)
    (k : string) : Prop :=
  match tech_clamp with
  | None => k = "clamp"
  | Some clamp =>
      (k = "top_layer" ∧ truthy (p_top_layer params) = false ∧
         cl_top_layer clamp = None) ∨
      (k = "used_port_layer" ∧ cl_used_port_layer clamp = None) ∨
      (k = "types" ∧ cl_types clamp = None) ∨
      (∃ types, cl_types clamp = Some types ∧
         k = p_cell_name params ∧ types !! k = None) ∨
      (∃ types config,
         cl_types clamp = Some types ∧
         types !! p_cell_name params = Some config ∧
         (k = "lib_name" ∧ cm_lib_name config = None ∨
          k = "cell_name" ∧ cm_cell_name config = None ∨
          k = "size" ∧ cm_size config = None ∨
          k = "ports" ∧ cm_ports config = None)) ∨
      (k = "rect_arr_list" ∧ cl_rect_arr_list clamp = None) ∨
      (∃ rect_arr_list rect_arr,
         cl_rect_arr_list clamp = Some rect_arr_list ∧
         rect_arr ∈ rect_arr_list ∧ missing_key rect_arr = Some k)
  end.

(** The exceptions [draw_layout] can end with. *)
Definition draw_layout_exn (params : Params) (tech_clamp : option ClampMap)
    (e : exn) : Prop :=
  match e with
  | KeyError k => absent_key params tech_clamp k
  | ValueError (EmptySequence fn) => fn = "max"
  | IndexError => True
  | AssertionError _ | ValueError _ =>
      ∃ clamp top used,
        tech_clamp = Some clamp ∧ tech_top_layer params clamp = Some top ∧
        cl_used_port_layer clamp = Some used ∧
        match e with
        | AssertionError m => m = LayerOrder top used ∧ top ≤ used
        | ValueError (RedoRouting l) => used < l ≤ top
        | _ => False
        end
  end.

(** *** The nets on their tracks *)

(** the TrackID pairs allocated so far, VDD's then VSS's, one pair per
    routed layer *)
Definition tids (s : ClampStatic) : list (TrackID * TrackID) :=
  omap (λ m, match m with
             | Tracks _ _ plus_tid minus_tid => Some (plus_tid, minus_tid)
             | Window _ _ _ _ _ _ => None
             end) (marks s).

(** the drawing calls that take a TrackID: [connect_bbox_to_tracks] and
    [connect_to_tracks], in call order *)
Definition track_call (e : Effect) : option Effect :=
  match e with
  | ConnectBBoxToTracks _ _ _ _ _ | ConnectToTracks _ _ _ => Some e
  | _ => None
  end.

Definition track_calls (s : ClampStatic) : list Effect :=
  omap track_call (effects s).

(** the layer of the TrackID a drawing call takes *)
Definition call_layer (e : Effect) : option Z :=
  match e with
  | ConnectBBoxToTracks _ _ _ tid _ | ConnectToTracks _ tid _ => Some (layer_id tid)
  | _ => None
  end.

Definition call_layers (s : ClampStatic) : list Z :=
  omap call_layer (effects s).

(** The layers of the calls of a complete routing: [n] calls on
    [used_port_layer + 1], one per pin rectangle, then two calls on each
    layer up to [top_layer]. *)
Definition hop_layers (n : nat) (used top : Z) : list Z :=
  replicate n (used + 1) ++ (seqZ (used + 2) (top - used - 1) ≫= λ l, [l; l]).

Section Nets.
Context `{Host}.

(** one [connect_bbox_to_tracks] call per rectangle, onto [tid] *)
Definition bbox_calls (lp : LayPurp) (boxes : list BBox) (tid : TrackID)
    : list Effect :=
  (λ b, ConnectBBoxToTracks LOWER lp b tid MIDDLE) <$> boxes.






(** the number of VDD and VSS pin rectangles of that instance *)
Definition pin_count (params : Params) (clamp_info : ClampInfo) : nat :=
  let used := ci_used_port_layer clamp_info in
  match ci_types clamp_info !! p_cell_name params with
  | Some config =>
      length (get_all_port_pins (placed used config) "VDD" used) +
      length (get_all_port_pins (placed used config) "VSS" used)
  | None => 0
  end.

End Nets.

Section Tech.
Context `{Host}.

(** [ClampStatic.draw_layout] (lines 57-206) on the dictionaries:
    [tech_clamp] is [tech_params.get('clamp')]. *)
Definition draw_layout_tech (params : Params) (tech_clamp : option ClampMap)
    : M ClampStatic unit :=
  let lib_name := p_lib_name params in
  let cell_name := p_cell_name params in
  (* --- Placement --- *)
  clamp_info ← getfield "clamp" tech_clamp;
  let _top_layer := p_top_layer params in
  top_layer ←
    (if negb (truthy _top_layer) then getfield "top_layer" (cl_top_layer clamp_info)
     else mret (default 0 _top_layer));
  set_top_layer top_layer ;;
  let port_layer := top_layer in
  set_conn_layer port_layer ;;
  used_port_layer ← getfield "used_port_layer" (cl_used_port_layer clamp_info);
  assert (used_port_layer <? port_layer) (LayerOrder top_layer used_port_layer) ;;
  types ← getfield "types" (cl_types clamp_info);
  config ← getitem types cell_name;
  static_lib ← getfield "lib_name" (cm_lib_name config);
  static_cell ← getfield "cell_name" (cm_cell_name config);
  size ← getfield "size" (cm_size config);
  ports ← getfield "ports" (cm_ports config);
  let master := mkBlackBox static_lib static_cell used_port_layer size ports in
  inst ← add_instance master "XINST";
  let bbox := bound_box inst in
  emit (SetSizeFromBoundBox port_layer bbox true) ;;
  rect_arr_list ← getfield "rect_arr_list" (cl_rect_arr_list clamp_info);
  for_each rect_arr_list (draw_rect_arr bbox) ;;
  (* --- Routing --- *)
  let vdd_hm := get_all_port_pins inst "VDD" used_port_layer in
  let vss_hm := get_all_port_pins inst "VSS" used_port_layer in
  hm_lp ← index (get_lay_purp_list used_port_layer) 0;
  route_supplies used_port_layer port_layer hm_lp vdd_hm vss_hm ;;
  let nc_hm := get_all_port_pins inst "NC" used_port_layer in
  for_each nc_hm (λ bbox,
    emit (AddRect hm_lp bbox) ;;
    emit (AddPinPrimitive "NC" used_port_layer bbox true)) ;;
  set_sch_params (lib_name, cell_name).

End Tech.

End ClampMore.

(** * Properties *)

(** ** Rules for runs *)

Module PyFacts.

Section Rules.
Context {S : Type}.
Implicit Types (s : S) (E : exn → S → Prop).

Lemma wp_ret {A} (a : A) (Q : A → S → Prop) E s :
  Q a s → wp (mret a) Q E s.
Proof. done. Qed.

Lemma wp_raise {A} e (Q : A → S → Prop) E s :
  E e s → wp (raise e) Q E s.
Proof. done. Qed.

Lemma wp_modify (f : S → S) (Q : unit → S → Prop) E s :
  Q tt (f s) → wp (modify f) Q E s.
Proof. done. Qed.

Lemma wp_bind {A B} (m : M S A) (k : A → M S B) (Q : B → S → Prop) E s :
  wp m (λ a, wp (k a) Q E) E s → wp (m ≫= k) Q E s.
Proof.
  unfold wp, mbind, M_bind, bind. by destruct (m s) as [s' [e|a]].
Qed.

Lemma wp_mono {A} (m : M S A) (Q Q' : A → S → Prop) E E' s :
  wp m Q E s →
  (∀ a s', Q a s' → Q' a s') → (∀ e s', E e s' → E' e s') →
  wp m Q' E' s.
Proof.
  unfold wp. destruct (m s) as [s' [e|a]]; eauto.
Qed.

Lemma wp_assert (cond : bool) msg (Q : unit → S → Prop) E s :
  (cond = true → Q tt s) → (cond = false → E (AssertionError msg) s) →
  wp (assert cond msg) Q E s.
Proof. destruct cond; cbn; eauto. Qed.

Lemma wp_getitem {A} (d : gmap string A) key (Q : A → S → Prop) E s :
  (∀ a, d !! key = Some a → Q a s) → (d !! key = None → E (KeyError key) s) →
  wp (getitem d key) Q E s.
Proof. unfold wp, getitem. destruct (d !! key); cbn; eauto. Qed.

Lemma wp_getfield {A} key (o : option A) (Q : A → S → Prop) E s :
  (∀ a, o = Some a → Q a s) → (o = None → E (KeyError key) s) →
  wp (getfield key o) Q E s.
Proof. destruct o; cbn; eauto. Qed.

Lemma wp_index {A} (l : list A) i (Q : A → S → Prop) E s :
  (∀ a, l !! i = Some a → Q a s) → (l !! i = None → E IndexError s) →
  wp (index l i) Q E s.
Proof. unfold wp, index. destruct (l !! i); cbn; eauto. Qed.

Lemma wp_max (l : list Z) (Q : Z → S → Prop) E s :
  (∀ z, max_list l = Some z → Q z s) →
  (l = [] → E (ValueError (EmptySequence "max")) s) →
  wp (Py.max l) Q E s.
Proof. destruct l; cbn; eauto. Qed.

Lemma wp_min (l : list Z) (Q : Z → S → Prop) E s :
  (∀ z, min_list l = Some z → Q z s) →
  (l = [] → E (ValueError (EmptySequence "min")) s) →
  wp (Py.min l) Q E s.
Proof. destruct l; cbn; eauto. Qed.

(** A loop keeps what its body keeps. *)
Lemma wp_for_each {A} (xs : list A) (body : A → M S unit) (I : S → Prop) E s :
  I s →
  (∀ x s', x ∈ xs → I s' → wp (body x) (λ _, I) E s') →
  wp (for_each xs body) (λ _, I) E s.
Proof.
  revert s. induction xs as [|x xs IH]; intros s Hs Hbody.
  - done.
  - apply (wp_bind (body x) (λ _, for_each xs body)).
    eapply wp_mono; [apply Hbody; [left | done] | | done].
    intros [] s' Hs'. apply IH; [done |].
    intros y s'' Hy. apply Hbody. by right.
Qed.

(** The same for a loop that rebinds names; the invariant sees the
    elements already visited. *)
Lemma wp_for_fold_from {A B} (all pre xs : list A) (body : B → A → M S B)
    (I : list A → B → S → Prop) E acc s :
  all = pre ++ xs →
  I pre acc s →
  (∀ pre' x post acc' s', all = pre' ++ x :: post → I pre' acc' s' →
     wp (body acc' x) (I (pre' ++ [x])) E s') →
  wp (for_fold xs acc body) (I all) E s.
Proof.
  revert pre acc s. induction xs as [|x xs IH]; intros pre acc s -> Hs Hbody.
  - rewrite app_nil_r. done.
  - apply (wp_bind (body acc x) (λ acc', for_fold xs acc' body)).
    eapply wp_mono; [by eapply Hbody | | done].
    intros acc' s' Hs'. cbn in Hs'.
    apply (IH (pre ++ [x])); [by rewrite <- app_assoc | done | done].
Qed.

Lemma wp_for_fold {A B} (xs : list A) (body : B → A → M S B)
    (I : list A → B → S → Prop) E acc s :
  I [] acc s →
  (∀ pre x post acc' s', xs = pre ++ x :: post → I pre acc' s' →
     wp (body acc' x) (I (pre ++ [x])) E s') →
  wp (for_fold xs acc body) (I xs) E s.
Proof. intros. by eapply (wp_for_fold_from xs []). Qed.

Lemma wp_for_each_then {A} (xs : list A) (body : A → M S unit) (I : S → Prop)
    (Q : unit → S → Prop) E s :
  I s →
  (∀ x s', x ∈ xs → I s' → wp (body x) (λ _, I) E s') →
  (∀ s', I s' → Q tt s') →
  wp (for_each xs body) Q E s.
Proof.
  intros Hs Hbody HQ.
  eapply wp_mono; [by apply (wp_for_each xs body I) | | done].
  intros []. apply HQ.
Qed.

Lemma wp_for_fold_then {A B} (xs : list A) (body : B → A → M S B)
    (I : list A → B → S → Prop) (Q : B → S → Prop) E acc s :
  I [] acc s →
  (∀ pre x post acc' s', xs = pre ++ x :: post → I pre acc' s' →
     wp (body acc' x) (I (pre ++ [x])) E s') →
  (∀ acc' s', I xs acc' s' → Q acc' s') →
  wp (for_fold xs acc body) Q E s.
Proof.
  intros Hs Hbody HQ.
  eapply wp_mono; [by apply (wp_for_fold xs body I) | done | done].
Qed.







End Rules.

Section SimRules.
Context {S : Type} (R : S → S → Prop).














End SimRules.


(** Unfold the monad, to compute a run. *)
Ltac run_m :=
  unfold mbind, mret, M_bind, M_ret, bind, ret, raise, modify; cbn.

(** One step of a run: split a sequence, or discharge its head. *)
Ltac wp_step :=
  lazymatch goal with
  | |- wp (mbind _ _) _ _ _ => apply wp_bind
  | |- wp (mret _) _ _ _ => apply wp_ret
  | |- wp (raise _) _ _ _ => apply wp_raise
  | |- wp (modify _) _ _ _ => apply wp_modify
  | |- wp (assert _ _) _ _ _ => apply wp_assert; intros ?
  | |- wp (getitem _ _) _ _ _ => apply wp_getitem; [intros ? ? | intros ?]
  | |- wp (getfield _ _) _ _ _ => apply wp_getfield; [intros ? ? | intros ?]
  | |- wp (index _ _) _ _ _ => apply wp_index; [intros ? ? | intros ?]
  | |- wp (Py.max _) _ _ _ => apply wp_max; [intros ? ? | intros ?]
  | |- wp (Py.min _) _ _ _ => apply wp_min; [intros ? ? | intros ?]
  | |- wp (if ?c then _ else _) _ _ _ => destruct c eqn:?
  | |- wp (let '(_, _) := ?p in _) _ _ _ => destruct p eqn:?
  end.

End PyFacts.

Import PyFacts.

(** ** [SchTemplate.add_instance] *)

Module SchFacts.
Import Sch.

Lemma str_truthy_false (s : string) : str_truthy s = false ↔ s = "".
Proof. destruct s; naive_solver. Qed.

(** The run of [add_instance] once the name check has passed. *)
Lemma add_instance_checked inst_name lib_name cell_name conns dx dy module_cls s :
  is_Some module_cls ∨ (lib_name ≠ "" ∧ cell_name ≠ "") →
  ∃ rest r,
    add_instance inst_name lib_name cell_name conns dx dy module_cls s =
      ({| prev_name := prev_name s; prev_pins := prev_pins s;
          calls := calls s ++
            ArrayInstance (prev_name s) ["X_0"; inst_name]
               (if (dx =? 0) && (dy =? 0) then 1 else dx) dy
            :: RenameInstance "X_0" (prev_name s) :: rest |}, r) ∧
    (is_Some module_cls → r = inl (ValueError NotSupported)).
Proof.
  intros Hchk. unfold add_instance.
  destruct module_cls as [cls|].
  - exists [], (inl (ValueError NotSupported)). split; [|done].
    unfold call, get_prev_name. run_m. by rewrite <- !app_assoc.
  - destruct Hchk as [[? [=]]|[Hl Hc]].
    destruct lib_name as [|a l]; [done|]. destruct cell_name as [|b c]; [done|].
    destruct conns as [[|cn cs]|]; eexists _, (inr tt);
      (split; [|by intros [? [=]]]); unfold call, get_prev_name; run_m;
      rewrite <- !app_assoc; reflexivity.
Qed.

(** C9: a call that passes [module_cls] fails with
    [ValueError('Not currently supported')]; a call without [module_cls]
    whose [lib_name] or [cell_name] is empty fails with the [ValueError]
    that asks for both names, before anything is touched. *)
Theorem add_instance_unsupported inst_name lib_name cell_name conns dx dy module_cls s :
  (is_Some module_cls →
     (add_instance inst_name lib_name cell_name conns dx dy module_cls s).2
       = inl (ValueError NotSupported)) ∧
  (module_cls = None → lib_name = "" ∨ cell_name = "" →
     add_instance inst_name lib_name cell_name conns dx dy module_cls s
       = (s, inl (ValueError NamesRequired))).
Proof.
  split.
  - intros Hcls.
    destruct (add_instance_checked inst_name lib_name cell_name conns dx dy
                module_cls s) as (rest & r & -> & Hr); [by left|].
    by apply Hr.
  - intros -> Hempty. unfold add_instance. run_m.
    assert (negb (str_truthy lib_name) || negb (str_truthy cell_name) = true) as ->.
    { destruct Hempty as [-> | ->]; [done|]. by rewrite orb_true_r. }
    done.
Qed.

Lemma add_instance_unsupported_witness :
  (add_instance "XM0" "" "" None 0 0 (Some "nmos4_stack") init).2
    = inl (ValueError NotSupported) ∧
  add_instance "XM0" "BAG_prim" "" None 0 0 None init
    = (init, inl (ValueError NamesRequired)).
Proof.
  split.
  - apply (add_instance_unsupported "XM0" "" "" None 0 0 (Some "nmos4_stack") init).
    by eexists.
  - apply (add_instance_unsupported "XM0" "BAG_prim" "" None 0 0 None init).
    + reflexivity.
    + right. reflexivity.
Defined.

(** C10: once the name check has passed, the reference instance is arrayed
    into ['X_0'] and the new instance with an offset that is never [(0, 0)]:
    [(1, 0)] when [dx] and [dy] are both 0, [(dx, dy)] otherwise; the next
    call renames ['X_0'] back to the reference name, which the template
    keeps. *)
Theorem add_instance_offset inst_name lib_name cell_name conns dx dy module_cls s :
  is_Some module_cls ∨ (lib_name ≠ "" ∧ cell_name ≠ "") →
  let s' := (add_instance inst_name lib_name cell_name conns dx dy module_cls s).1 in
  ∃ dx' dy' rest,
    calls s' = calls s ++
      ArrayInstance (prev_name s) ["X_0"; inst_name] dx' dy'
        :: RenameInstance "X_0" (prev_name s) :: rest ∧
    (dx', dy') ≠ (0, 0) ∧
    (dx = 0 → dy = 0 → dx' = 1 ∧ dy' = 0) ∧
    (¬ (dx = 0 ∧ dy = 0) → dx' = dx ∧ dy' = dy) ∧
    prev_name s' = prev_name s.
Proof.
  intros Hchk s'.
  destruct (add_instance_checked inst_name lib_name cell_name conns dx dy
              module_cls s Hchk) as (rest & r & Heq & _).
  subst s'. rewrite Heq. cbn.
  exists (if (dx =? 0) && (dy =? 0) then 1 else dx), dy, rest.
  split; [done|].
  split_and!; [| | | done].
  - destruct (Z.eqb_spec dx 0), (Z.eqb_spec dy 0); cbn; congruence.
  - by intros -> ->.
  - intros Hne. destruct (Z.eqb_spec dx 0), (Z.eqb_spec dy 0); cbn; try done.
    by destruct Hne.
Qed.

Lemma add_instance_offset_witness :
  ∃ dx' dy' rest,
    calls (add_instance "XM0" "BAG_prim" "nmos4_standard" None 0 0 None init).1 =
      calls init ++
        ArrayInstance (prev_name init) ["X_0"; "XM0"] dx' dy'
          :: RenameInstance "X_0" (prev_name init) :: rest ∧
    (dx', dy') ≠ (0, 0) ∧
    (0 = 0 → 0 = 0 → dx' = 1 ∧ dy' = 0) ∧
    (¬ (0 = 0 ∧ 0 = 0) → dx' = 0 ∧ dy' = 0) ∧
    prev_name (add_instance "XM0" "BAG_prim" "nmos4_standard" None 0 0 None init).1
      = prev_name init.
Proof.
  apply (add_instance_offset "XM0" "BAG_prim" "nmos4_standard" None 0 0 None init).
  right. split; intros [=].
Defined.

End SchFacts.

(** ** [ClampStatic.draw_layout] *)

Module ClampFacts.
Import Clamp.

(** What a run leaves in its state, whatever its outcome. *)
Lemma wp_state {S A} (m : M S A) (P : S → Prop) s :
  wp m (λ _, P) (λ _, P) s → P (m s).1.
Proof. unfold wp. by destruct (m s) as [s' [e|a]]. Qed.



Section Pins.
Context `{Host}.

(** The two loops over pin rectangles never fail: they draw one wire per
    rectangle, in order. *)
Lemma connect_all_run lp tid (xs : list BBox) (acc : list WireArray) s :
  for_fold xs acc (λ plus_vm bbox,
    warr ← connect_bbox_to_tracks LOWER lp bbox tid MIDDLE;
    mret (plus_vm ++ [warr])) s =
  (add_effects ((λ b, ConnectBBoxToTracks LOWER lp b tid MIDDLE) <$> xs) s,
   inr (acc ++ ((λ b, bbox_to_tracks_warr LOWER lp b tid MIDDLE) <$> xs))).
Proof.
  revert acc s. induction xs as [|x xs IH]; intros acc s.
  - destruct s. unfold add_effects. cbn. by rewrite !app_nil_r.
  - cbn [for_fold]. unfold mbind at 1, M_bind at 1, bind at 1.
    unfold connect_bbox_to_tracks at 1, emit. run_m.
    rewrite IH. unfold add_effects. cbn. by rewrite <- !app_assoc.
Qed.

Lemma wp_connect_all lp tid (xs : list BBox) (acc : list WireArray)
    (Q : list WireArray → ClampStatic → Prop) E s :
  Q (acc ++ ((λ b, bbox_to_tracks_warr LOWER lp b tid MIDDLE) <$> xs))
    (add_effects ((λ b, ConnectBBoxToTracks LOWER lp b tid MIDDLE) <$> xs) s) →
  wp (for_fold xs acc (λ plus_vm bbox,
        warr ← connect_bbox_to_tracks LOWER lp bbox tid MIDDLE;
        mret (plus_vm ++ [warr]))) Q E s.
Proof. intros HQ. unfold wp. by rewrite connect_all_run. Qed.

End Pins.

Ltac state_simpl :=
  cbn beta iota delta [_conn_layer _top_layer sch_params effects marks add_effects].

Ltac clamp_step :=
  first
    [ lazymatch goal with
      | |- wp (let x := ?v in @?m x) ?Q ?E ?s =>
          change (let x := v in wp (m x) Q E s); intro
      end
    | wp_step
    | lazymatch goal with
      | |- wp (emit _) _ _ _ => apply wp_modify
      | |- wp (mark _) _ _ _ => apply wp_modify
      | |- wp (set_top_layer _) _ _ _ => apply wp_modify
      | |- wp (set_conn_layer _) _ _ _ => apply wp_modify
      | |- wp (set_sch_params _) _ _ _ => apply wp_modify
      | |- wp (add_instance _ _) _ _ _ => cbv delta [add_instance] beta
      | |- wp (connect_bbox_to_tracks _ _ _ _ _) _ _ _ =>
          cbv delta [connect_bbox_to_tracks] beta
      | |- wp (connect_wires _) _ _ _ => cbv delta [connect_wires] beta
      | |- wp (connect_to_tracks _ _ _) _ _ _ => cbv delta [connect_to_tracks] beta
      | |- wp (for_fold _ _ (λ plus_vm bbox,
                 connect_bbox_to_tracks _ _ bbox _ _ ≫= _)) _ _ _ =>
          apply wp_connect_all
      end ];
  state_simpl.

Ltac clamp_steps := cbv beta iota; repeat clamp_step.

(** A loop, with its invariant: the goals left are the body, then the
    code after the loop. *)
Ltac wp_loop_each I :=
  apply (wp_for_each_then _ _ I); [ state_simpl; try done | | ].

Ltac wp_loop_fold I :=
  apply (wp_for_fold_then _ _ I); [ state_simpl; try done | | ].

Section Facts.
Context `{Host}.

(** *** The resolved top layer *)

Lemma draw_rect_arr_top_layer bbox rect_arr v s :
  _top_layer s = v →
  wp (draw_rect_arr bbox rect_arr) (λ _ s', _top_layer s' = v)
    (λ _ s', _top_layer s' = v) s.
Proof. intros Hs. cbv delta [draw_rect_arr] beta. clamp_steps; done. Qed.

Lemma route_up_top_layer ports layer v s :
  _top_layer s = v →
  wp (route_up ports layer) (λ _ s', _top_layer s' = v)
    (λ _ s', _top_layer s' = v) s.
Proof. intros Hs. cbv delta [route_up] beta. clamp_steps; done. Qed.

Lemma first_hop_top_layer used lp vdd vss v s :
  _top_layer s = v →
  wp (first_hop used lp vdd vss) (λ _ s', _top_layer s' = v)
    (λ _ s', _top_layer s' = v) s.
Proof. intros Hs. cbv delta [first_hop] beta. clamp_steps; done. Qed.

Lemma route_supplies_top_layer used port lp vdd vss v s :
  _top_layer s = v →
  wp (route_supplies used port lp vdd vss) (λ _ s', _top_layer s' = v)
    (λ _ s', _top_layer s' = v) s.
Proof.
  intros Hs. cbv delta [route_supplies] beta. clamp_steps.
  eapply wp_mono; [by apply first_hop_top_layer | | done].
  intros ports s1 Hs1. clamp_steps.
  - wp_loop_fold (λ (_ : list Z) (_ : WireArray * WireArray) s',
                    _top_layer s' = v).
    + intros. by apply route_up_top_layer.
    + intros [p m] s2 Hs2. clamp_steps. done.
  - clamp_steps. done.
Qed.

Lemma draw_layout_top_layer params clamp_info s :
  wp (draw_layout params clamp_info)
    (λ _ s', _top_layer s' = resolve_top_layer params clamp_info)
    (λ _ s', _top_layer s' = resolve_top_layer params clamp_info) s.
Proof.
  cbv delta [draw_layout] beta. clamp_steps; try done.
  wp_loop_each (λ s', _top_layer s' = top_layer).
  { intros. by apply draw_rect_arr_top_layer. }
  intros s1 Hs1. clamp_steps; try done.
  eapply wp_mono; [by apply route_supplies_top_layer | | done].
  intros [] s2 Hs2. state_simpl. clamp_steps.
  wp_loop_each (λ s', _top_layer s' = top_layer).
  all: intros; clamp_steps; done.
Qed.

(** C7 (as amended): the template's top layer is the [top_layer] parameter
    when that is supplied and not 0; it is the technology's [top_layer] when
    the parameter is absent or 0. *)
Theorem top_layer_resolution params clamp_info :
  let st := (draw_layout params clamp_info init).1 in
  (∀ z, p_top_layer params = Some z → z ≠ 0 → _top_layer st = z) ∧
  (p_top_layer params = None ∨ p_top_layer params = Some 0 →
     _top_layer st = ci_top_layer clamp_info).
Proof.
  intros st.
  assert (_top_layer st = resolve_top_layer params clamp_info) as ->.
  { apply (wp_state (draw_layout params clamp_info)
             (λ s, _top_layer s = resolve_top_layer params clamp_info)).
    apply draw_layout_top_layer. }
  unfold resolve_top_layer. split.
  - intros z -> Hz. cbn. by destruct (Z.eqb_spec z 0).
  - by intros [-> | ->].
Qed.

(** *** The layer-order assertion *)

Lemma draw_rect_arr_no_assert bbox rect_arr s :
  wp (draw_rect_arr bbox rect_arr) (λ _ _, True) (λ e _, not_assertion e) s.
Proof. cbv delta [draw_rect_arr] beta. clamp_steps; done. Qed.

Lemma route_up_no_assert ports layer s :
  wp (route_up ports layer) (λ _ _, True) (λ e _, not_assertion e) s.
Proof. cbv delta [route_up] beta. clamp_steps; done. Qed.

Lemma first_hop_no_assert used lp vdd vss s :
  wp (first_hop used lp vdd vss) (λ _ _, True) (λ e _, not_assertion e) s.
Proof. cbv delta [first_hop] beta. clamp_steps; done. Qed.

Lemma route_supplies_no_assert used port lp vdd vss s :
  wp (route_supplies used port lp vdd vss) (λ _ _, True)
    (λ e _, not_assertion e) s.
Proof.
  cbv delta [route_supplies] beta. clamp_steps.
  eapply wp_mono; [by apply first_hop_no_assert | | done].
  intros ports s1 _. clamp_steps.
  - wp_loop_fold (λ (_ : list Z) (_ : WireArray * WireArray)
                    (_ : ClampStatic), True).
    + intros. by apply route_up_no_assert.
    + intros [p m] s2 _. clamp_steps. done.
  - clamp_steps. done.
Qed.

(** C8: when [used_port_layer] is not below the resolved top layer, the
    run stops at the assertion, having set only the two layer attributes:
    no instance, no rectangle, no wire, no pin.  When it is below, no
    [AssertionError] is raised. *)
Theorem layer_order_assertion params clamp_info :
  let top := resolve_top_layer params clamp_info in
  let used := ci_used_port_layer clamp_info in
  (top ≤ used →
     draw_layout params clamp_info init =
       ({| _conn_layer := top; _top_layer := top; sch_params := None;
           effects := []; marks := [] |},
        inl (AssertionError (LayerOrder top used)))) ∧
  (used < top →
     ∀ m, (draw_layout params clamp_info init).2 ≠ inl (AssertionError m)).
Proof.
  intros top used. split.
  - intros Hle. unfold draw_layout. fold top used.
    unfold set_top_layer, set_conn_layer. run_m.
    by destruct (Z.ltb_spec used top); [lia|].
  - intros Hlt m Hm.
    assert (wp (draw_layout params clamp_info) (λ _ _, True)
              (λ e _, not_assertion e) init) as Hwp.
    { cbv delta [draw_layout] beta. clamp_steps; try done.
      - wp_loop_each (λ _ : ClampStatic, True).
        { intros. eapply wp_mono; [apply draw_rect_arr_no_assert | done | done]. }
        intros s1 _. clamp_steps; try done.
        eapply wp_mono; [apply route_supplies_no_assert | | done].
        intros [] s2 _. state_simpl. clamp_steps.
        wp_loop_each (λ _ : ClampStatic, True).
        all: intros; clamp_steps; done.
      - subst port_layer top_layer used_port_layer. fold top used in H0. lia. }
    unfold wp in Hwp.
    destruct (draw_layout params clamp_info init) as [st [e|a]]; cbn in Hm; [|done].
    by injection Hm as ->.
Qed.

(** *** Rectangle arrays *)


(** *** The layers routed *)

Ltac obs_simpl :=
  lazymatch goal with
  | |- wp _ _ _ _ => idtac
  | |- _ =>
      unfold routed, windows, pins; state_simpl; rewrite ?omap_app;
      cbn [omap list_omap]; rewrite ?app_nil_r
  end.

Lemma route_up_routed ports layer s :
  wp (route_up ports layer)
    (λ _ s', routed s' = routed s ++ [layer])
    (λ _ s', routed s' = routed s) s.
Proof. cbv delta [route_up] beta. clamp_steps; obs_simpl; done. Qed.

Lemma first_hop_routed used lp vdd vss s :
  wp (first_hop used lp vdd vss)
    (λ _ s', routed s' = routed s ++ [used + 1])
    (λ _ s', routed s' = routed s ∨ routed s' = routed s ++ [used + 1]) s.
Proof.
  cbv delta [first_hop] beta. clamp_steps; obs_simpl; auto.
Qed.


Lemma route_supplies_routed used port lp vdd vss s :
  used < port →
  wp (route_supplies used port lp vdd vss)
    (λ _ s', routed s' = routed s ++ seqZ (used + 1) (port - used))
    (λ _ s', ∃ p, routed s' = routed s ++ p ∧
                  p `prefix_of` seqZ (used + 1) (port - used)) s.
Proof.
  intros Hlt. cbv delta [route_supplies] beta. clamp_steps.
  assert (seqZ (used + 1) (port - used)
          = tr_layer :: seqZ (tr_layer + 1) (port - used - 1)) as Hseq.
  { subst tr_layer. rewrite (seqZ_cons (used + 1)); [|lia].
    assert (Z.succ (used + 1) = used + 1 + 1) as -> by lia.
    by assert (Z.pred (port - used) = port - used - 1) as -> by lia. }
  eapply wp_mono; [apply first_hop_routed | |].
  2:{ intros e s' [-> | ->].
      - exists []. rewrite app_nil_r. split; [done | apply prefix_nil].
      - exists [used + 1]. split; [done|]. rewrite Hseq.
        apply prefix_cons, prefix_nil. }
  intros ports s1 Hs1. cbv beta in Hs1. clamp_steps.
  - wp_loop_fold (λ (pre : list Z) (_ : WireArray * WireArray) s',
                    routed s' = routed s ++ tr_layer :: pre).
    + intros pre x post acc s2 Hxs Hs2.
      eapply wp_mono; [apply route_up_routed | |].
      * intros _ s3 ->. rewrite Hs2. by rewrite <- !app_assoc.
      * intros e s3 ->. rewrite Hs2. eexists; split; [done|].
        rewrite Hseq. apply prefix_cons.
        unfold range in Hxs.
        replace (port + 1 - (tr_layer + 1)) with (port - used - 1) in Hxs
          by (subst tr_layer; lia).
        rewrite Hxs. by apply prefix_app_r.
    + intros [p m] s2 Hs2. clamp_steps. obs_simpl. fold (routed s2).
      rewrite Hs2, Hseq. unfold range. do 3 f_equal. subst tr_layer; lia.
  - clamp_steps. obs_simpl. fold (routed s1). rewrite Hs1, Hseq.
    assert (port = used + 1) as -> by (subst tr_layer; lia).
    replace (used + 1 - used - 1) with 0 by lia. done.
Qed.

Lemma draw_layout_routed params clamp_info :
  let used := ci_used_port_layer clamp_info in
  let top := resolve_top_layer params clamp_info in
  wp (draw_layout params clamp_info)
    (λ _ st, routed st = seqZ (used + 1) (top - used))
    (λ _ st, routed st `prefix_of` seqZ (used + 1) (top - used)) init.
Proof.
  intros used top. cbv delta [draw_layout] beta. clamp_steps; obs_simpl.
  all: try apply prefix_nil.
  assert (used < top) as Hlt.
  { subst port_layer top_layer used_port_layer. fold top used in H0. lia. }
  wp_loop_each (λ s', routed s' = []).
  { intros ra s1 _ Hs1.
    cbv delta [draw_rect_arr] beta. clamp_steps; obs_simpl; try done.
    all: fold (routed s1); rewrite Hs1; apply prefix_nil. }
  intros s1 Hs1. clamp_steps; obs_simpl.
  2:{ fold (routed s1). rewrite Hs1. apply prefix_nil. }
  eapply wp_mono; [by apply route_supplies_routed | |].
  2:{ intros e s2 (p & -> & Hp). by rewrite Hs1. }
  intros [] s2 Hs2. state_simpl. rewrite Hs1 in Hs2. cbn in Hs2.
  clamp_steps.
  wp_loop_each (λ s', routed s' = seqZ (used + 1) (top - used)).
  - intros b s3 _ Hs3. clamp_steps. by obs_simpl.
  - intros s3 Hs3. clamp_steps. by obs_simpl.
Qed.

(** *** Windows too small *)

Lemma pins_connect_bbox lp tid (xs : list BBox) :
  omap (λ e, match e with AddPin net warr _ => Some (net, warr) | _ => None end)
    ((λ b, ConnectBBoxToTracks LOWER lp b tid MIDDLE) <$> xs) = [].
Proof. by induction xs. Qed.

Lemma ltb_num_sig (n : Z) : (n <? num_sig) = true ↔ n < 2.
Proof. unfold num_sig. apply Z.ltb_lt. Qed.

Lemma geb_num_sig (n : Z) : (n <? num_sig) = false ↔ 2 ≤ n.
Proof. unfold num_sig. apply Z.ltb_ge. Qed.

Ltac stop_simpl s :=
  obs_simpl; rewrite ?pins_connect_bbox, ?app_nil_r;
  fold (windows s); fold (pins s).

Lemma first_hop_stopped used lp vdd vss lo hi s :
  lo ≤ used + 1 ≤ hi →
  Forall (feasible lo hi) (windows s) → pins s = [] →
  wp (first_hop used lp vdd vss)
    (λ _ s', Forall (feasible lo hi) (windows s') ∧ pins s' = [])
    (stopped lo hi) s.
Proof.
  intros Hr Hw Hp. cbv delta [first_hop] beta. clamp_steps.
  all: unfold stopped; stop_simpl s.
  all: try match goal with H : (_ <? num_sig) = true |- _ =>
         apply ltb_num_sig in H end.
  all: try match goal with H : (_ <? num_sig) = false |- _ =>
         apply geb_num_sig in H end.
  all: try (split; [done|]).
  all: try (split; [|done]).
  all: try done.
  all: try (apply Forall_app; split; [done|]; apply Forall_singleton; done).
  all: try by eexists _, _.
Qed.

Lemma route_up_stopped ports layer lo hi s :
  lo ≤ layer ≤ hi →
  Forall (feasible lo hi) (windows s) → pins s = [] →
  wp (route_up ports layer)
    (λ _ s', Forall (feasible lo hi) (windows s') ∧ pins s' = [])
    (stopped lo hi) s.
Proof.
  intros Hr Hw Hp. cbv delta [route_up] beta. clamp_steps.
  all: unfold stopped; stop_simpl s.
  all: try match goal with H : (_ <? num_sig) = true |- _ =>
         apply ltb_num_sig in H end.
  all: try match goal with H : (_ <? num_sig) = false |- _ =>
         apply geb_num_sig in H end.
  all: try (split; [done|]).
  all: try (split; [|done]).
  all: try done.
  all: try (apply Forall_app; split; [done|]; apply Forall_singleton; done).
  all: try by eexists _, _.
Qed.

Lemma route_supplies_stopped used port lp vdd vss s :
  used < port →
  Forall (feasible (used + 1) port) (windows s) → pins s = [] →
  wp (route_supplies used port lp vdd vss)
    (λ _ s', Forall (feasible (used + 1) port) (windows s'))
    (stopped (used + 1) port) s.
Proof.
  intros Hlt Hw Hp. cbv delta [route_supplies] beta. clamp_steps.
  eapply wp_mono;
    [apply (first_hop_stopped _ _ _ _ (used + 1) port); [lia | done | done]
    | | done].
  intros ports s1 [Hw1 Hp1]. clamp_steps.
  - wp_loop_fold (λ (_ : list Z) (_ : WireArray * WireArray) s',
                    Forall (feasible (used + 1) port) (windows s') ∧ pins s' = []).
    + intros pre x post acc s2 Hxs [Hw2 Hp2].
      apply route_up_stopped; [|done|done].
      assert (x ∈ range (tr_layer + 1) (port + 1)) as Hx.
      { rewrite Hxs. apply elem_of_app. right. by left. }
      unfold range in Hx. apply elem_of_seqZ in Hx. subst tr_layer. lia.
    + intros [p m] s2 [Hw2 Hp2]. clamp_steps. by obs_simpl.
  - clamp_steps. by obs_simpl.
Qed.

Lemma draw_layout_stopped params clamp_info :
  let used := ci_used_port_layer clamp_info in
  let top := resolve_top_layer params clamp_info in
  wp (draw_layout params clamp_info)
    (λ _ st, Forall (feasible (used + 1) top) (windows st))
    (stopped (used + 1) top) init.
Proof.
  intros used top. cbv delta [draw_layout] beta. clamp_steps.
  all: unfold stopped; stop_simpl init; try done.
  assert (used < top) as Hlt.
  { subst port_layer top_layer used_port_layer. fold top used in H0. lia. }
  wp_loop_each (λ s', windows s' = [] ∧ pins s' = []).
  { intros ra s1 _ [Hw1 Hp1].
    cbv delta [draw_rect_arr] beta. clamp_steps.
    all: unfold stopped; stop_simpl s1; rewrite ?Hw1, ?Hp1; done. }
  intros s1 [Hw1 Hp1]. clamp_steps.
  2:{ unfold stopped. by rewrite Hw1, Hp1. }
  eapply wp_mono;
    [apply route_supplies_stopped; [done | by rewrite Hw1 | done] | | done].
  intros [] s2 Hs2. state_simpl. clamp_steps.
  wp_loop_each (λ s', Forall (feasible (used + 1) top) (windows s')).
  - intros b s3 _ Hs3. clamp_steps. by obs_simpl.
  - intros s3 Hs3. clamp_steps. by obs_simpl.
Qed.

(** C1: when the count of a layer's window (the wires that fit between its
    snapped ends, plus 2) is below 2, the run stops with
    [ValueError('Redo routing on layer=...')] for that layer and has
    published no pin; when every count is at least 2 no such exception is
    raised.  The windows sized are on layers of
    [used_port_layer + 1 .. top_layer]. *)
Theorem infeasible_layer params clamp_info :
  let used := ci_used_port_layer clamp_info in
  let top := resolve_top_layer params clamp_info in
  let st := (draw_layout params clamp_info init).1 in
  let r := (draw_layout params clamp_info init).2 in
  (∀ layer n, (layer, n) ∈ windows st → n < 2 →
     r = inl (ValueError (RedoRouting layer)) ∧ pins st = []) ∧
  ((∀ layer n, (layer, n) ∈ windows st → 2 ≤ n) →
     ∀ layer, r ≠ inl (ValueError (RedoRouting layer))) ∧
  (∀ layer n, (layer, n) ∈ windows st → used < layer ≤ top).
Proof.
  intros used top st r.
  pose proof (draw_layout_stopped params clamp_info) as Hwp.
  cbv zeta in Hwp. fold used top in Hwp. unfold wp in Hwp.
  subst st r. destruct (draw_layout params clamp_info init) as [st [e|[]]]; cbn.
  - destruct Hwp as [Hp Hw].
    assert (∀ l, e = ValueError (RedoRouting l) ∨ e ≠ ValueError (RedoRouting l))
      as Hdec.
    { intros l. destruct e as [m|[l'| | | |]| |]; try by right.
      destruct (decide (l' = l)) as [->|]; [by left | right; congruence]. }
    assert ((∃ l ws n, e = ValueError (RedoRouting l) ∧
               windows st = ws ++ [(l, n)] ∧ n < 2 ∧ used + 1 ≤ l ≤ top ∧
               Forall (feasible (used + 1) top) ws) ∨
            ((∀ l, e ≠ ValueError (RedoRouting l)) ∧
               Forall (feasible (used + 1) top) (windows st))) as [Hredo|Hother].
    { destruct e as [m|[l'| | | |]| |]; try by right.
      left. destruct Hw as (ws & n & ?). by exists l', ws, n. }
    + destruct Hredo as (l & ws & n & -> & Hws & Hn & Hl & Hfeas).
      rewrite Hws. rewrite Forall_forall in Hfeas. split_and!.
      * intros layer n' [Hin | Hin%list_elem_of_singleton]%elem_of_app Hn'.
        { apply Hfeas in Hin as [_ Hin]. cbn in Hin. lia. }
        by injection Hin as -> ->.
      * intros Hall layer _. specialize (Hall l n).
        assert (2 ≤ n); [|lia]. apply Hall, elem_of_app. right. by left.
      * intros layer n' [Hin | Hin%list_elem_of_singleton]%elem_of_app.
        { apply Hfeas in Hin as [Hin _]. cbn in Hin. lia. }
        injection Hin as -> ->. lia.
    + destruct Hother as [Hne Hfeas]. rewrite Forall_forall in Hfeas.
      split_and!.
      * intros layer n Hin%Hfeas Hn. destruct Hin as [_ Hin]. cbn in Hin. lia.
      * intros _ layer [=]. by eapply Hne.
      * intros layer n Hin%Hfeas. destruct Hin as [Hin _]. cbn in Hin. lia.
  - rewrite Forall_forall in Hwp. split_and!.
    + intros layer n Hin%Hwp Hn. destruct Hin as [_ Hin]. cbn in Hin. lia.
    + done.
    + intros layer n Hin%Hwp. destruct Hin as [Hin _]. cbn in Hin. lia.
Qed.

(** *** Snapping the first window *)

Lemma first_hop_window used lp vdd vss s lo hi :
  overlap_window used vdd vss = Some (lo, hi) →
  let tr_layer := used + 1 in
  let lower := lo + sup_ext used in
  let upper := hi - sup_ext used in
  let l_idx := coord_to_track tr_layer lower GREATER_EQ in
  let r_idx := coord_to_track tr_layer upper LESS_EQ in
  let n := get_num_wires_between tr_layer "sup" l_idx "sup" r_idx "sup" + 2 in
  ∃ rest, marks (first_hop used lp vdd vss s).1 =
            marks s ++ Window tr_layer lower upper l_idx r_idx n :: rest.
Proof.
  intros Hov tr_layer lower upper l_idx r_idx n.
  apply (wp_state (first_hop used lp vdd vss)
           (λ s', ∃ rest, marks s' =
              marks s ++ Window tr_layer lower upper l_idx r_idx n :: rest)).
  unfold overlap_window in Hov.
  subst n l_idx r_idx lower upper tr_layer. unfold sup_ext.
  cbv delta [first_hop] beta. clamp_steps.
  all: repeat match goal with x := _ |- _ => subst x end.
  all: rewrite Heqp.
  all: repeat match goal with
       | Hm : max_list _ = Some _ |- _ => rewrite Hm in Hov; clear Hm
       | Hm : min_list _ = Some _ |- _ => rewrite Hm in Hov; clear Hm
       | Hl : _ <$> _ = [] |- _ => rewrite Hl in Hov; clear Hl
       end.
  all: simplify_eq/=.
  all: rewrite <- ?app_assoc; by eexists.
Qed.

(** C3 (as amended): on the first hop the overlap window of all VDD and
    VSS pin extents, shrunk by [ext] on each side, is snapped to the next
    layer's tracks with [GREATER_EQ] at its low end and [LESS_EQ] at its
    high end: both ends move inward, the low end toward higher coordinates
    and the high end toward lower ones. *)
Theorem first_hop_snap used lp vdd vss s lo hi :
  overlap_window used vdd vss = Some (lo, hi) →
  (∀ layer c, c ≤ track_to_coord layer (coord_to_track layer c GREATER_EQ)) →
  (∀ layer c, track_to_coord layer (coord_to_track layer c LESS_EQ) ≤ c) →
  let tr_layer := used + 1 in
  let lower := lo + sup_ext used in
  let upper := hi - sup_ext used in
  ∃ l_idx r_idx n rest,
    marks (first_hop used lp vdd vss s).1 =
      marks s ++ Window tr_layer lower upper l_idx r_idx n :: rest ∧
    l_idx = coord_to_track tr_layer lower GREATER_EQ ∧
    r_idx = coord_to_track tr_layer upper LESS_EQ ∧
    lower ≤ track_to_coord tr_layer l_idx ∧
    track_to_coord tr_layer r_idx ≤ upper.
Proof.
  intros Hov Hge Hle tr_layer lower upper.
  destruct (first_hop_window used lp vdd vss s lo hi Hov) as [rest Hrest].
  eexists _, _, _, rest. split; [exact Hrest|].
  split_and!; [done | done | apply Hge | apply Hle].
Qed.

(** *** The order of the pin rectangles *)









Section Order.
(* a wire drawn on a TrackID carries it *)
Hypothesis Htid : ∀ dir lp box tid mode,
  track_id (bbox_to_tracks_warr dir lp box tid mode) = tid.
(* merging the wires of one TrackID does not depend on their order *)
Hypothesis Hmerge : ∀ tid warrs warrs',
  Forall (λ w, track_id w = tid) warrs → warrs ≡ₚ warrs' →
  head (connected_warrs warrs) = head (connected_warrs warrs').










End Order.

(** *** The pins published *)

Section Published.
Context `{!HostLaws H}.












End Published.

End Facts.

(** *** Runs on the uniform grid *)

Lemma top_layer_resolution_witness :
  _top_layer (@draw_layout uniform (ex_params (Some 3)) (ex_clamp_info 2 4) init).1 = 3 ∧
  _top_layer (@draw_layout uniform (ex_params None) (ex_clamp_info 2 4) init).1 = 4.
Proof.
  split.
  - apply (@top_layer_resolution uniform (ex_params (Some 3)) (ex_clamp_info 2 4)).
    + reflexivity.
    + lia.
  - apply (@top_layer_resolution uniform (ex_params None) (ex_clamp_info 2 4)).
    left. reflexivity.
Defined.

(** C7 as stated fails: [top_layer=0] is supplied, and the template takes
    the technology's layer 4. *)
Lemma top_layer_zero_counterexample :
  p_top_layer (ex_params (Some 0)) = Some 0 ∧
  _top_layer (@draw_layout uniform (ex_params (Some 0)) (ex_clamp_info 2 4) init).1 ≠ 0.
Proof. split; [reflexivity | vm_compute; discriminate]. Qed.

Lemma layer_order_assertion_witness :
  (@draw_layout uniform (ex_params None) (ex_clamp_info 4 4) init =
     ({| _conn_layer := 4; _top_layer := 4; sch_params := None;
         effects := []; marks := [] |},
      inl (AssertionError (LayerOrder 4 4)))) ∧
  (∀ m, (@draw_layout uniform (ex_params None) (ex_clamp_info 2 4) init).2
          ≠ inl (AssertionError m)).
Proof.
  split.
  - apply (@layer_order_assertion uniform (ex_params None) (ex_clamp_info 4 4)).
    vm_compute. discriminate.
  - apply (@layer_order_assertion uniform (ex_params None) (ex_clamp_info 2 4)).
    reflexivity.
Defined.



Lemma infeasible_layer_witness :
  ((@draw_layout uniform (ex_params None) (ex_clamp_info 3 5) init).2
     = inl (ValueError (RedoRouting 4)) ∧
   pins (@draw_layout uniform (ex_params None) (ex_clamp_info 3 5) init).1 = []) ∧
  (∀ layer, (@draw_layout uniform (ex_params None) (ex_clamp_info 2 4) init).2
              ≠ inl (ValueError (RedoRouting layer))).
Proof.
  split.
  - apply (@infeasible_layer uniform (ex_params None) (ex_clamp_info 3 5)) with (-5).
    + vm_compute. left.
    + lia.
  - apply (@infeasible_layer uniform (ex_params None) (ex_clamp_info 2 4)).
    intros layer n Hin. vm_compute in Hin.
    apply elem_of_cons in Hin as [[= _ ->] | Hin]; [lia|].
    apply elem_of_cons in Hin as [[= _ ->] | Hin]; [lia|].
    by apply elem_of_nil in Hin.
Defined.

(** A run of C6 to completion: layers 3 and 4, then the two pins. *)
Example layers_3_4_run :
  routed (@draw_layout uniform (ex_params None) (ex_clamp_info 2 4) init).1 = [3; 4] ∧
  (@draw_layout uniform (ex_params None) (ex_clamp_info 2 4) init).2 = inr tt.
Proof. split; by vm_compute. Qed.

Lemma uniform_round_up (c : Z) : c ≤ 10 * ceil_div c 10.
Proof. unfold ceil_div. pose proof (Z.mod_pos_bound (- c) 10).
  pose proof (Z.div_mod (- c) 10). lia. Qed.

Lemma uniform_round_down (c : Z) : 10 * (c / 10) ≤ c.
Proof. pose proof (Z.mod_pos_bound c 10). pose proof (Z.div_mod c 10). lia. Qed.

Lemma first_hop_snap_witness :
  ∃ l_idx r_idx n rest,
    marks (@first_hop uniform 2 ("metal", "drawing") ex_vdd ex_vss init).1 =
      marks init ++
        Window 3 (0 + @sup_ext uniform 2) (100 - @sup_ext uniform 2) l_idx r_idx n
        :: rest ∧
    l_idx = @coord_to_track uniform 3 (0 + @sup_ext uniform 2) GREATER_EQ ∧
    r_idx = @coord_to_track uniform 3 (100 - @sup_ext uniform 2) LESS_EQ ∧
    0 + @sup_ext uniform 2 ≤ @track_to_coord uniform 3 l_idx ∧
    @track_to_coord uniform 3 r_idx ≤ 100 - @sup_ext uniform 2.
Proof.
  apply (@first_hop_snap uniform 2 ("metal", "drawing") ex_vdd ex_vss init 0 100).
  - reflexivity.
  - intros layer c. apply uniform_round_up.
  - intros layer c. apply uniform_round_down.
Defined.

(** C3 as stated fails at the low end: the window starts at coordinate 2
    and is snapped to track 1, at coordinate 10, above it; rounding toward
    lower coordinates would give track 0. *)
Lemma low_end_snap_counterexample :
  ∃ lower upper l_idx r_idx n rest,
    marks (@draw_layout uniform (ex_params None) (ex_clamp_info 2 4) init).1 =
      Window 3 lower upper l_idx r_idx n :: rest ∧
    lower < @track_to_coord uniform 3 l_idx ∧
    l_idx ≠ @coord_to_track uniform 3 lower LESS_EQ.
Proof.
  eexists _, _, _, _, _, _. split_and!; [by vm_compute | by vm_compute|].
  vm_compute. discriminate.
Qed.







End ClampFacts.

(** ** Class names and model files *)

Module NamesFacts.
Import Stdlib.Strings.Ascii.
Import Names.

Lemma string_ind2 (P : string → Prop) :
  P "" → (∀ c, P (String c "")) →
  (∀ c c' s, P s → P (String c' s) → P (String c (String c' s))) →
  ∀ s, P s.
Proof.
  intros Hnil Hone Hstep.
  assert (∀ s, P s ∧ ∀ c, P (String c s)) as Hboth.
  { induction s as [|c' s [IH1 IH2]]; [by split|].
    split; [apply IH2|]. intros c. by apply Hstep. }
  intros s. apply Hboth.
Qed.

Lemma dunder_at_true c c' :
  dunder_at c c' = true → c = "_"%char ∧ c' = "_"%char.
Proof.
  unfold dunder_at. intros [Hc Hc']%andb_prop.
  by apply Ascii.eqb_eq in Hc, Hc'.
Qed.

Lemma split_step (c c' : ascii) (s : string) :
  split (String c (String c' s)) =
    if dunder_at c c' then "" :: split s else cons_first c (split (String c' s)).
Proof. reflexivity. Qed.

Lemma split_nonempty (s : string) : split s ≠ [].
Proof.
  induction s as [|c|c c' s IH1 IH2] using string_ind2; [done | done |].
  rewrite split_step. destruct (dunder_at c c'); [done|].
  by destruct (split (String c' s)).
Qed.

(** the first piece of a split is empty or starts with the first character *)
Lemma split_head (c : ascii) (s : string) :
  ∃ p ps, split (String c s) = p :: ps ∧ (p = "" ∨ ∃ p', p = String c p').
Proof.
  destruct s as [|c' s].
  - exists (String c ""), []. split; [done | right; by eexists].
  - rewrite split_step. destruct (dunder_at c c').
    + exists "", (split s). by split; [|left].
    + destruct (split (String c' s)) as [|p ps] eqn:Hs.
      * exists (String c ""), []. split; [done | right; by eexists].
      * exists (String c p), ps. split; [done | right; by eexists].
Qed.

Lemma join_cons_first (c : ascii) (p : string) (ps : list string) :
  join (cons_first c (p :: ps)) = String c (join (p :: ps)).
Proof. by destruct ps. Qed.

Lemma join_split (s : string) : join (split s) = s.
Proof.
  induction s as [|c|c c' s IH1 IH2] using string_ind2; [done | done |].
  rewrite split_step. destruct (dunder_at c c') eqn:Hd.
  - apply dunder_at_true in Hd as [-> ->].
    pose proof (split_nonempty s) as Hne.
    destruct (split s) as [|p ps]; [done|].
    change (join ("" :: p :: ps)) with ("__" +:+ join (p :: ps)).
    by rewrite IH1.
  - pose proof (split_nonempty (String c' s)) as Hne.
    destruct (split (String c' s)) as [|p ps]; [done|].
    by rewrite join_cons_first, IH2.
Qed.

Lemma has_dunder_cons (c c' : ascii) (s : string) :
  has_dunder (String c (String c' s)) = dunder_at c c' || has_dunder (String c' s).
Proof. reflexivity. Qed.

Lemma split_pieces (s : string) : Forall (λ p, has_dunder p = false) (split s).
Proof.
  induction s as [|c|c c' s IH1 IH2] using string_ind2.
  - by apply Forall_singleton.
  - by apply Forall_singleton.
  - rewrite split_step. destruct (dunder_at c c') eqn:Hd.
    + by apply Forall_cons.
    + destruct (split_head c' s) as (p & ps & Hs & Hp).
      rewrite Hs in IH2 |- *. apply Forall_cons in IH2 as [Hp' Hps].
      apply Forall_cons. split; [|done].
      destruct Hp as [-> | [p' ->]]; [done|].
      by rewrite has_dunder_cons, Hd, Hp'.
Qed.

Lemma split_plain (s : string) : has_dunder s = false → split s = [s].
Proof.
  induction s as [|c|c c' s IH1 IH2] using string_ind2; [done | done |].
  rewrite has_dunder_cons. intros [Hd Hs]%orb_false_elim.
  rewrite split_step, Hd. by rewrite IH2.
Qed.

Lemma split_dunder (lib rest : string) :
  has_dunder (lib +:+ "_") = false →
  split (lib +:+ "__" +:+ rest) = lib :: split rest.
Proof.
  induction lib as [|c lib IH]; [done|].
  intros Hd.
  assert (∃ c' t t', lib +:+ "_" = String c' t ∧
                     lib +:+ "__" +:+ rest = String c' t') as (c' & t & t' & Ht & Ht').
  { destruct lib as [|c' lib]; [by exists "_"%char, "", ("_" +:+ rest)|].
    by exists c', (lib +:+ "_"), (lib +:+ "__" +:+ rest). }
  change (String c lib +:+ "_") with (String c (lib +:+ "_")) in Hd.
  change (String c lib +:+ "__" +:+ rest)
    with (String c (lib +:+ "__" +:+ rest)).
  rewrite Ht in Hd. rewrite has_dunder_cons in Hd.
  apply orb_false_elim in Hd as [Hd Hrest]. rewrite <- Ht in Hrest.
  specialize (IH Hrest).
  rewrite Ht' in IH |- *. rewrite split_step, Hd. by rewrite IH.
Qed.

Lemma string_app_assoc (a b c : string) : (a +:+ b) +:+ c = a +:+ b +:+ c.
Proof.
  induction a as [|x a IH]; [done|].
  change (String x ((a +:+ b) +:+ c) = String x (a +:+ b +:+ c)).
  by rewrite IH.
Qed.

Lemma join_snoc (l : list string) (b : string) :
  ∃ pre, join (l ++ [b]) = pre +:+ b.
Proof.
  induction l as [|p l [pre IH]]; [by exists ""|].
  exists (p +:+ "__" +:+ pre).
  change ((p :: l) ++ [b]) with (p :: (l ++ [b])).
  destruct (l ++ [b]) as [|q qs] eqn:Hl; [by destruct l|].
  change (join (p :: q :: qs)) with (p +:+ "__" +:+ join (q :: qs)).
  by rewrite IH, !string_app_assoc.
Qed.

(** X1: joining the pieces of [split('__')] with ['__'] gives the string
    back. *)
Theorem split_join_round_trip (s : string) : join (split s) = s.
Proof. apply join_split. Qed.

Lemma basename_defined (cls_name : string) :
  ∃ b, get_master_basename cls_name = inr b.
Proof.
  unfold get_master_basename, index_last.
  destruct (last (split cls_name)) as [b|] eqn:Hb; [by exists b|].
  apply last_None in Hb. by apply split_nonempty in Hb.
Qed.

(** X2: [get_master_basename] never fails: the split of a class name is not
    empty.  The basename holds no ['__'], it is a suffix of the class name,
    and it is the whole class name when that holds no ['__']. *)
Theorem master_basename_total (cls_name : string) :
  ∃ b, get_master_basename cls_name = inr b ∧
       has_dunder b = false ∧
       (∃ pre, cls_name = pre +:+ b) ∧
       (has_dunder cls_name = false → b = cls_name).
Proof.
  unfold get_master_basename, index_last.
  destruct (last (split cls_name)) as [b|] eqn:Hb.
  - exists b. apply last_Some in Hb as [l Hl]. split_and!; [done | | |].
    + pose proof (split_pieces cls_name) as Hp. rewrite Hl in Hp.
      apply Forall_app in Hp as [_ Hb]. by inversion Hb.
    + destruct (join_snoc l b) as [pre Hpre]. exists pre.
      by rewrite <- Hpre, <- Hl, join_split.
    + intros Hplain. rewrite (split_plain _ Hplain) in Hl.
      destruct l as [|x l]; [by injection Hl|].
      destruct l; discriminate.
  - apply last_None in Hb. by apply split_nonempty in Hb.
Qed.

(** X3: for a class named [lib__cell], where [cell] holds no ['__'] and
    [lib] holds none and does not end in ['_'], the basename is [cell] and
    the library part is [lib]. *)
Theorem lib_cell_names (lib cell : string) :
  has_dunder (lib +:+ "_") = false → has_dunder cell = false →
  get_master_basename (lib +:+ "__" +:+ cell) = inr cell ∧
  index_first (split (lib +:+ "__" +:+ cell)) = inr lib.
Proof.
  intros Hlib Hcell. unfold get_master_basename.
  by rewrite (split_dunder lib cell Hlib), (split_plain cell Hcell).
Qed.

Lemma lib_cell_names_witness :
  get_master_basename ("xbase" +:+ "__" +:+ "clamp_static") = inr "clamp_static" ∧
  index_first (split ("xbase" +:+ "__" +:+ "clamp_static")) = inr "xbase".
Proof. apply (lib_cell_names "xbase" "clamp_static"); reflexivity. Defined.

Section ModelPath.
Context `{Files}.

(** X4: [get_model_path] never fails.  It returns the file
    [work_dir/lib/src/lib/schematic/models/basename.ext], with [work_dir]
    five levels above the netlist directory, or that file renamed with the
    extension of the fallback model type; the latter only when the first is
    not a file, the fallback type differs, and the renamed file exists. *)
Theorem model_path_choice (cls_name : string) (dir : Path) (out : DesignOutput) :
  ∃ lib b p,
    index_first (split cls_name) = inr lib ∧
    get_master_basename cls_name = inr b ∧
    get_model_path cls_name dir out = inr p ∧
    let primary :=
      model_file (parent (parent (parent (parent (parent dir))))) lib b out in
    let fallback :=
      with_name primary (b +:+ "." +:+ extension (fallback_model_type out)) in
    (p = primary ∨
     p = fallback ∧ is_file primary = false ∧ fallback_model_type out ≠ out ∧
       is_file fallback = true) ∧
    (is_file primary = true → p = primary) ∧
    (fallback_model_type out = out → p = primary).
Proof.
  destruct (basename_defined cls_name) as (b & Hb).
  pose proof (split_nonempty cls_name) as Hne.
  unfold get_model_path, model_file. rewrite Hb. unfold index_first.
  destruct (split cls_name) as [|lib pieces]; [done|]. cbn [head].
  exists lib, b.
  destruct (is_file _) eqn:Hprim; cbn [negb].
  { eexists. split_and!; try done. by left. }
  destruct (bool_decide _) eqn:Hfb; cbn [negb].
  { eexists. split_and!; try done. by left. }
  apply bool_decide_eq_false in Hfb.
  destruct (is_file (with_name _ _)) eqn:Htest.
  - eexists. split_and!; try done. right. by split_and!.
  - eexists. split_and!; try done. by left.
Qed.

End ModelPath.

End NamesFacts.

(** ** The rest of [SchTemplate] *)

Module SchMoreFacts.
Import Sch Mos.

Ltac run_sch :=
  unfold add_instance, post_design, call, get_prev_name, get_prev_pins, extend,
    added; run_m.

Lemma add_instance_run inst_name lib_name cell_name conns dx dy s :
  lib_name ≠ "" → cell_name ≠ "" →
  add_instance inst_name lib_name cell_name conns dx dy None s =
    (extend (added (prev_name s) inst_name lib_name cell_name conns dx dy) s,
     inr tt).
Proof.
  intros Hl Hc.
  destruct lib_name as [|a l]; [done|]. destruct cell_name as [|b c]; [done|].
  destruct conns as [[|cn cs]|]; run_sch; by rewrite <- ?app_assoc.
Qed.

(** X5: with no [module_cls] and both names given, [add_instance] returns:
    it arrays the reference instance into ['X_0'] and the new instance,
    renames ['X_0'] back, gives the new instance its master, and reconnects
    it only when [conns] is not empty. *)
Theorem add_instance_returns inst_name lib_name cell_name conns dx dy s :
  lib_name ≠ "" → cell_name ≠ "" →
  add_instance inst_name lib_name cell_name conns dx dy None s =
    (extend (added (prev_name s) inst_name lib_name cell_name conns dx dy) s,
     inr tt).
Proof. apply add_instance_run. Qed.

Lemma add_instance_returns_witness :
  add_instance "XM0" "BAG_prim" "nmos4_standard" (Some [("G", "in")]) 0 2 None init =
    (extend (added (prev_name init) "XM0" "BAG_prim" "nmos4_standard"
               (Some [("G", "in")]) 0 2) init, inr tt).
Proof.
  apply (add_instance_returns "XM0" "BAG_prim" "nmos4_standard"
           (Some [("G", "in")]) 0 2 init); intros [=].
Defined.

Lemma extend_nil s : extend [] s = s.
Proof. destruct s. unfold extend. cbn. by rewrite app_nil_r. Qed.

Lemma extend_extend cs cs' s : extend cs' (extend cs s) = extend (cs ++ cs') s.
Proof. unfold extend. cbn. by rewrite app_assoc. Qed.

Lemma offset_not_zero (dx dy : Z) :
  (if (dx =? 0) && (dy =? 0) then 1 else dx, dy) ≠ (0, 0).
Proof.
  destruct (Z.eqb_spec dx 0), (Z.eqb_spec dy 0); cbn; congruence.
Qed.

(** [add_instance] only appends calls, and none of them removes or moves
    the placeholder. *)
Lemma add_instance_extends inst_name lib_name cell_name conns dx dy module_cls s :
  prev_name s = "XINST" →
  ∃ cs, (add_instance inst_name lib_name cell_name conns dx dy module_cls s).1
          = extend cs s ∧
        Forall keeps_placeholder cs.
Proof.
  intros Hprev.
  assert (keeps_placeholder
            (ArrayInstance (prev_name s) ["X_0"; inst_name]
               (if (dx =? 0) && (dy =? 0) then 1 else dx) dy)) as Harr.
  { split_and!; [done | by eexists | apply offset_not_zero]. }
  assert (keeps_placeholder (RenameInstance "X_0" (prev_name s))) as Hren by done.
  destruct module_cls as [cls|].
  - exists [ArrayInstance (prev_name s) ["X_0"; inst_name]
              (if (dx =? 0) && (dy =? 0) then 1 else dx) dy;
            RenameInstance "X_0" (prev_name s)].
    split; [|by repeat (apply Forall_cons; split; [done|])].
    run_sch. by rewrite <- ?app_assoc.
  - destruct lib_name as [|a l].
    { exists []. split; [|done]. by rewrite extend_nil. }
    destruct cell_name as [|b c].
    { exists []. split; [|done]. by rewrite extend_nil. }
    rewrite add_instance_run by done.
    eexists. split; [done|]. unfold added.
    destruct conns as [[|cn cs]|]; cbn;
      by repeat (apply Forall_cons; split; [done|]).
Qed.

Section Built.
Context `{MOSTypes}.

Lemma add_transistor_extends inst_name mos_type stack conns dx dy s :
  prev_name s = "XINST" →
  ∃ cs, (add_transistor inst_name mos_type stack conns dx dy s).1 = extend cs s ∧
        Forall keeps_placeholder cs.
Proof.
  intros Hprev. unfold add_transistor.
  destruct (match mos_type with inl _ => _ | inr _ => _ end) as [e|t].
  { exists []. by rewrite extend_nil. }
  destruct (mos_cell t stack) as [cell|].
  2:{ exists []. by rewrite extend_nil. }
  match goal with |- context [add_instance ?a ?b ?c ?d ?e ?f ?g s] =>
    destruct (add_instance_extends a b c d e f g s Hprev) as (cs & Hcs & Hall);
    destruct (add_instance a b c d e f g s) as [s' [e'|[]]] end;
    by exists cs.
Qed.

(** X6: in every template built from [__init__] by calls of [add_instance]
    and [add_transistor], failed ones included, the reference name is still
    ['XINST'] and the reference pins are unchanged; every array call takes
    ['XINST'] as its reference, into ['X_0'] and one new name at an offset
    that is not [(0, 0)]; every rename gives ['X_0'] the name ['XINST']
    back; and nothing has been removed. *)
Theorem built_keeps_placeholder s :
  built s →
  prev_name s = "XINST" ∧ prev_pins s = ["IN"; "OUT"; "VSUP"] ∧
  Forall keeps_placeholder (calls s).
Proof.
  induction 1 as [|? ? ? ? ? ? ? s Hs (IH1 & IH2 & IH3)
                  |? ? ? ? ? ? s Hs (IH1 & IH2 & IH3)]; [done| |].
  - destruct (add_instance_extends inst_name lib_name cell_name conns dx dy
                module_cls s IH1) as (cs & -> & Hcs).
    split_and!; [done | done |]. cbn. by apply Forall_app.
  - destruct (add_transistor_extends inst_name mos_type stack conns dx dy s IH1)
      as (cs & -> & Hcs).
    split_and!; [done | done |]. cbn. by apply Forall_app.
Qed.

End Built.

Lemma remove_pins_run (pins : list string) s :
  for_each pins (λ pin, call (RemovePin pin)) s =
    (extend (RemovePin <$> pins) s, inr tt).
Proof.
  revert s. induction pins as [|pin pins IH]; intros s.
  - cbn. by rewrite extend_nil.
  - cbn [for_each]. unfold mbind, M_bind, bind.
    change (call (RemovePin pin) s)
      with (extend [RemovePin pin] s, @inr exn unit tt).
    cbv beta iota. by rewrite IH, extend_extend.
Qed.

(** X7: [post_design] never fails: it removes the instance named ['XINST'],
    then every reference pin, in order. *)
Theorem post_design_run s :
  post_design s =
    (extend (RemoveInstance "XINST" :: (RemovePin <$> prev_pins s)) s, inr tt).
Proof.
  unfold post_design, mbind, M_bind, bind.
  change (call (RemoveInstance "XINST") s)
    with (extend [RemoveInstance "XINST"] s, @inr exn unit tt).
  unfold get_prev_pins. cbv beta iota.
  by rewrite remove_pins_run, extend_extend.
Qed.

Lemma built_keeps_placeholder_witness :
  let s := (@add_transistor mos_types "XM1" (inl "pch") false None 0 0
              (add_instance "XM0" "BAG_prim" "nmos4_standard" None 0 0 None init).1).1 in
  prev_name s = "XINST" ∧ prev_pins s = ["IN"; "OUT"; "VSUP"] ∧
  Forall keeps_placeholder (calls s).
Proof.
  apply (@built_keeps_placeholder mos_types).
  apply built_transistor, built_instance, built_init.
Defined.

Section Transistors.
Context `{MOSTypes}.

(** the library and the cell of a transistor master *)
Lemma add_transistor_master inst_name (t : MOSType) stack conns dx dy s cell :
  mos_cell t stack = Some cell →
  add_transistor inst_name (inr t) stack conns dx dy s =
    (extend (added (prev_name s) inst_name
               (if stack then "xbase" else "BAG_prim") cell conns dx dy) s,
     inr tt).
Proof.
  intros Hcell. unfold add_transistor. rewrite Hcell.
  assert (cell ≠ "") as Hne.
  { unfold mos_cell in Hcell.
    repeat case_decide; destruct stack; by simplify_eq. }
  rewrite add_instance_run; [| by destruct stack | done].
  unfold added. by destruct conns as [[|c cs]|].
Qed.

(** X8: [add_transistor] on [nch] or [pch] returns, having added the
    instance as [add_instance] does with the master
    [xbase/nmos4_stack] or [xbase/pmos4_stack] when [stack] is set and
    [BAG_prim/nmos4_standard] or [BAG_prim/pmos4_standard] otherwise. *)
Theorem add_transistor_returns inst_name stack conns dx dy s :
  nch ≠ pch →
  add_transistor inst_name (inr nch) stack conns dx dy s =
    (extend (added (prev_name s) inst_name
               (if stack then "xbase" else "BAG_prim")
               (if stack then "nmos4_stack" else "nmos4_standard")
               conns dx dy) s, inr tt) ∧
  add_transistor inst_name (inr pch) stack conns dx dy s =
    (extend (added (prev_name s) inst_name
               (if stack then "xbase" else "BAG_prim")
               (if stack then "pmos4_stack" else "pmos4_standard")
               conns dx dy) s, inr tt).
Proof.
  intros Hne. split; apply add_transistor_master; unfold mos_cell.
  - by rewrite decide_True.
  - rewrite decide_False by done. by rewrite decide_True.
Qed.

(** X9: [add_transistor] on a member of [MOSType] other than [nch] and
    [pch] raises its [ValueError] with [str(mos_type)], and on a name that
    is no member raises [KeyError]; in both cases no call is made.  A name
    of a member behaves as the member. *)
Theorem add_transistor_rejects inst_name stack conns dx dy s :
  (∀ t, t ≠ nch → t ≠ pch →
     add_transistor inst_name (inr t) stack conns dx dy s =
       (s, inl (Unsupported (mos_str t)))) ∧
  (∀ name, member name = None →
     add_transistor inst_name (inl name) stack conns dx dy s =
       (s, inl (Raised (KeyError name)))) ∧
  (∀ name t, member name = Some t →
     add_transistor inst_name (inl name) stack conns dx dy s =
       add_transistor inst_name (inr t) stack conns dx dy s).
Proof.
  split_and!.
  - intros t Hn Hp. unfold add_transistor, mos_cell.
    by rewrite !decide_False by done.
  - intros name Hname. unfold add_transistor. by rewrite Hname.
  - intros name t Hname. unfold add_transistor. by rewrite Hname.
Qed.

End Transistors.

Lemma add_transistor_returns_witness :
  @add_transistor mos_types "XM0" (inr Mnch) true None 0 0 init =
    (extend (added (prev_name init) "XM0" "xbase" "nmos4_stack" None 0 0) init,
     inr tt) ∧
  @add_transistor mos_types "XM0" (inr Mpch) true None 0 0 init =
    (extend (added (prev_name init) "XM0" "xbase" "pmos4_stack" None 0 0) init,
     inr tt).
Proof.
  apply (@add_transistor_returns mos_types "XM0" true None 0 0 init).
  discriminate.
Defined.

Lemma add_transistor_rejects_witness :
  @add_transistor mos_types "XM0" (inr Mptap) false None 0 0 init =
    (init, inl (Unsupported "MOSType.ptap")) ∧
  @add_transistor mos_types "XM0" (inl "nmos") false None 0 0 init =
    (init, inl (Raised (KeyError "nmos"))) ∧
  @add_transistor mos_types "XM0" (inl "pch") false None 0 0 init =
    @add_transistor mos_types "XM0" (inr Mpch) false None 0 0 init.
Proof.
  pose proof (@add_transistor_rejects mos_types "XM0" false None 0 0 init)
    as (Hother & Hname & Hmember).
  split_and!.
  - apply (Hother Mptap); discriminate.
  - apply Hname. reflexivity.
  - apply Hmember. reflexivity.
Defined.

End SchMoreFacts.

(** ** More of [ClampStatic.draw_layout] *)

Module ClampMoreFacts.
Import Clamp ClampMore ClampFacts.

Lemma add_effects_nil s : add_effects [] s = s.
Proof. destruct s. unfold add_effects. cbn. by rewrite app_nil_r. Qed.

Lemma add_effects_app es es' s :
  add_effects es' (add_effects es s) = add_effects (es ++ es') s.
Proof. unfold add_effects. cbn. by rewrite app_assoc. Qed.

Lemma draw_rect_arr_run bbox rect_arr s :
  match missing_key rect_arr with
  | Some k => draw_rect_arr bbox rect_arr s = (s, inl (KeyError k))
  | None =>
      ∃ e, draw_rect_arr bbox rect_arr s = (add_effects [e] s, inr tt) ∧
           draws rect_arr e
  end.
Proof.
  unfold missing_key, draw_rect_arr.
  destruct (default 0 (ra_spx rect_arr) =? 0) eqn:Hx;
    destruct (default 0 (ra_spy rect_arr) =? 0) eqn:Hy;
    destruct (ra_w_unit rect_arr) as [w|];
    destruct (ra_h_unit rect_arr) as [h|];
    destruct (ra_lay_purp rect_arr) as [lp|] eqn:Hlp; cbn [negb andb bool_decide];
    run_m; try done.
  all: rewrite ?Hx, ?Hy; cbn; try done.
  all: eexists; split; [reflexivity|]; by rewrite ?Hlp.
Qed.

(** X10: a rectangle-array spec that lacks a key it needs raises [KeyError]
    for the first such key, in the order [w_unit] (read when [spx] is not
    0), [h_unit] (read when [spy] is not 0), [lay_purp], and draws nothing;
    a spec that lacks none is drawn by one [add_rect_array] call with its
    layer-purpose pair and pitches. *)
Theorem rect_arr_keys bbox rect_arr s :
  match missing_key rect_arr with
  | Some k => draw_rect_arr bbox rect_arr s = (s, inl (KeyError k))
  | None =>
      ∃ e, draw_rect_arr bbox rect_arr s = (add_effects [e] s, inr tt) ∧
           draws rect_arr e
  end.
Proof. apply draw_rect_arr_run. Qed.

Lemma rect_arrays_run bbox (specs : list RectArr) s :
  wp (for_each specs (draw_rect_arr bbox))
    (λ _ s', ∃ es, s' = add_effects es s ∧ Forall2 draws specs es)
    (λ e s', ∃ drawn rect_arr rest k es,
       specs = drawn ++ rect_arr :: rest ∧
       Forall (λ r, missing_key r = None) drawn ∧
       missing_key rect_arr = Some k ∧ e = KeyError k ∧
       s' = add_effects es s ∧ Forall2 draws drawn es) s.
Proof.
  revert s. induction specs as [|ra specs IH]; intros s.
  - exists []. by rewrite add_effects_nil.
  - unfold wp. cbn [for_each]. unfold mbind, M_bind, bind.
    pose proof (draw_rect_arr_run bbox ra s) as Hra.
    destruct (missing_key ra) as [k|] eqn:Hk.
    + rewrite Hra. exists [], ra, specs, k, [].
      by rewrite add_effects_nil.
    + destruct Hra as (e & -> & He). specialize (IH (add_effects [e] s)).
      unfold wp in IH.
      destruct (for_each specs (draw_rect_arr bbox) (add_effects [e] s))
        as [s' [ex|[]]].
      * destruct IH as (drawn & ra' & rest & k & es & -> & Hnone & Hk' & -> & -> & Hes).
        exists (ra :: drawn), ra', rest, k, (e :: es).
        split_and!; try done; [by apply Forall_cons | | by apply Forall2_cons].
        by rewrite add_effects_app.
      * destruct IH as (es & -> & Hes). exists (e :: es).
        split; [by rewrite add_effects_app | by apply Forall2_cons].
Qed.

(** X11: the rectangle arrays are drawn in the order of the technology's
    list, one call per spec; the loop stops at the first spec that lacks a
    key, with that [KeyError], having drawn the specs before it. *)
Theorem rect_arrays_drawn bbox (specs : list RectArr) s :
  wp (for_each specs (draw_rect_arr bbox))
    (λ _ s', ∃ es, s' = add_effects es s ∧ Forall2 draws specs es)
    (λ e s', ∃ drawn rect_arr rest k es,
       specs = drawn ++ rect_arr :: rest ∧
       Forall (λ r, missing_key r = None) drawn ∧
       missing_key rect_arr = Some k ∧ e = KeyError k ∧
       s' = add_effects es s ∧ Forall2 draws drawn es) s.
Proof. apply rect_arrays_run. Qed.

Ltac pins_simpl :=
  lazymatch goal with
  | |- wp _ _ _ _ => idtac
  | |- _ =>
      unfold unpublished, completed, pins; state_simpl; rewrite ?omap_app;
      cbn [omap list_omap]; rewrite ?pins_connect_bbox, ?app_nil_r
  end.

Section More.
Context `{Host}.

(** *** All or nothing *)

Lemma draw_rect_arr_unpublished bbox rect_arr v s :
  unpublished v s →
  wp (draw_rect_arr bbox rect_arr) (λ _, unpublished v) (λ _, unpublished v) s.
Proof.
  intros Hs. cbv delta [draw_rect_arr] beta. clamp_steps; pins_simpl; done.
Qed.

Lemma route_up_unpublished ports layer v s :
  unpublished v s →
  wp (route_up ports layer) (λ _, unpublished v) (λ _, unpublished v) s.
Proof.
  intros Hs. cbv delta [route_up] beta. clamp_steps; pins_simpl; done.
Qed.

Lemma first_hop_unpublished used lp vdd vss v s :
  unpublished v s →
  wp (first_hop used lp vdd vss) (λ _, unpublished v) (λ _, unpublished v) s.
Proof.
  intros Hs. cbv delta [first_hop] beta. clamp_steps; pins_simpl; done.
Qed.

(** Steps up to the next lookup in a dictionary. *)
Ltac clamp_to_key :=
  repeat lazymatch goal with
         | |- wp (mbind _ (getfield _ _)) _ _ _ => fail
         | |- wp (mbind _ (getitem _ _)) _ _ _ => fail
         | |- wp (mbind _ (assert _ _)) _ _ _ => fail
         | |- wp (mbind _ (if _ then _ else _)) _ _ _ => fail
         | |- wp (mbind _ (for_each _ _)) _ _ _ => fail
         | |- _ => clamp_step
         end.

Lemma wp_top_layer params clamp (Q : Z → ClampStatic → Prop) E s :
  (∀ top, tech_top_layer params clamp = Some top → Q top s) →
  (tech_top_layer params clamp = None → E (KeyError "top_layer") s) →
  wp (if negb (truthy (p_top_layer params))
      then getfield "top_layer" (cl_top_layer clamp)
      else mret (default 0 (p_top_layer params))) Q E s.
Proof.
  unfold tech_top_layer. intros HQ HE.
  destruct (negb _); [apply wp_getfield; eauto | by apply wp_ret, HQ].
Qed.

(** X12: a run of [draw_layout] is all or nothing.  When it returns, it has
    published exactly two pins, VDD then VSS, set [sch_params] to the
    [lib_name] and [cell_name] parameters, and [conn_layer] and [top_layer]
    both hold the resolved top layer.  When it raises, it has published no
    pin and left [sch_params] unset; the two layer attributes hold the
    resolved top layer when there is one, and when [tech_params] lacks
    ['clamp'], or the parameter is falsy and the technology lacks
    ['top_layer'], the template is as [__init__] left it. *)
Theorem draw_layout_all_or_nothing params tech_clamp :
  wp (draw_layout_tech params tech_clamp)
    (λ _ s', ∃ clamp top,
       tech_clamp = Some clamp ∧ tech_top_layer params clamp = Some top ∧
       completed top (p_lib_name params, p_cell_name params) s')
    (λ _ s', match tech_clamp ≫= tech_top_layer params with
             | Some top => unpublished top s'
             | None => s' = init
             end) init.
Proof.
  cbv delta [draw_layout_tech] beta. do 2 clamp_step.
  apply wp_bind, wp_getfield; [intros clamp -> | by intros ->].
  clamp_step. apply wp_bind, wp_top_layer; cbn [mbind option_bind option_ret];
    [intros top Htop | by intros ->].
  apply (wp_mono _ (λ _, completed top (p_lib_name params, p_cell_name params))
           _ (λ _, unpublished top));
    [ | intros [] s' Hs'; by exists clamp, top | intros e s' Hs'; by rewrite Htop ].
  clamp_steps; pins_simpl; try done.
  wp_loop_each (unpublished top).
  { intros ra s1 _ Hs1. by apply draw_rect_arr_unpublished. }
  intros s1 Hs1. clamp_steps; try done.
  cbv delta [route_supplies] beta. clamp_steps.
  eapply wp_mono; [by apply first_hop_unpublished | | done].
  intros hop s2 Hs2. cbv beta in Hs2. clamp_steps.
  - wp_loop_fold (λ (_ : list Z) (_ : WireArray * WireArray), unpublished top).
    { intros. by apply route_up_unpublished. }
    intros [p m] s3 (Hc & Ht & Hsch & Hp). clamp_steps.
    wp_loop_each (λ s', _conn_layer s' = top ∧ _top_layer s' = top ∧
                        sch_params s' = None ∧
                        pins s' = [("VDD", p); ("VSS", m)]).
    + pins_simpl. fold (pins s3). by rewrite Hp.
    + intros b s4 _ (? & ? & ? & Hp4). clamp_steps. pins_simpl.
      fold (pins s4). by rewrite Hp4.
    + intros s4 (? & ? & ? & Hp4). clamp_steps. pins_simpl.
      fold (pins s4). split_and!; try done. by exists p, m.
  - destruct Hs2 as (Hc & Ht & Hsch & Hp).
    match goal with Hw : hop = (?p, ?m) |- _ =>
      wp_loop_each (λ s', _conn_layer s' = top ∧ _top_layer s' = top ∧
                          sch_params s' = None ∧
                          pins s' = [("VDD", p); ("VSS", m)]) end.
    + pins_simpl. fold (pins s2). by rewrite Hp.
    + intros b s4 _ (? & ? & ? & Hp4). clamp_steps. pins_simpl.
      fold (pins s4). by rewrite Hp4.
    + intros s4 (? & ? & ? & Hp4). clamp_steps. pins_simpl.
      fold (pins s4). split_and!; try done. by eexists _, _.
Qed.

(** *** Technology data that hold every key *)


(** *** Rows of a pitched rectangle array *)

Lemma floor_row_fits (lo hi unit sp : Z) :
  0 < sp → row_fits lo hi unit sp ((hi - lo - unit) / sp + 1).
Proof.
  intros Hsp. unfold row_fits.
  pose proof (Z.mul_div_le (hi - lo - unit) sp Hsp).
  pose proof (Z.mul_succ_div_gt (hi - lo - unit) sp Hsp).
  split; [done|]. nia.
Qed.

(** X13: a rectangle array with a positive pitch on an axis is drawn with
    a unit-sized rectangle at the margin-adjusted low edge and the floor
    count [(high - low - unit) // pitch + 1]: the last copy ends at or before
    the margin-adjusted high edge and one more copy would pass it.  The
    count is not clamped: it is at least 1 exactly when one unit fits. *)
Theorem pitched_rect_arr bbox rect_arr s :
  (∀ w, 0 < default 0 (ra_spx rect_arr) → ra_w_unit rect_arr = Some w →
     wp (draw_rect_arr bbox rect_arr)
       (λ _ s', ∃ lp box nx ny sy,
          effects s' = effects s ++
            [AddRectArray lp box nx ny (default 0 (ra_spx rect_arr)) sy] ∧
          xl box = xl bbox + margin rect_arr "xl" ∧ xh box = xl box + w ∧
          row_fits (xl box) (xh bbox + margin rect_arr "xh") w
            (default 0 (ra_spx rect_arr)) nx)
       (λ _ s', s' = s) s) ∧
  (∀ h, 0 < default 0 (ra_spy rect_arr) → ra_h_unit rect_arr = Some h →
     wp (draw_rect_arr bbox rect_arr)
       (λ _ s', ∃ lp box nx ny sx,
          effects s' = effects s ++
            [AddRectArray lp box nx ny sx (default 0 (ra_spy rect_arr))] ∧
          yl box = yl bbox + margin rect_arr "yl" ∧ yh box = yl box + h ∧
          row_fits (yl box) (yh bbox + margin rect_arr "yh") h
            (default 0 (ra_spy rect_arr)) ny)
       (λ _ s', s' = s) s).
Proof.
  split.
  - intros w Hsp Hw. cbv delta [draw_rect_arr] beta. clamp_steps; try done.
    all: try by destruct s.
    all: try lia.
    all: simplify_eq.
    all: eexists _, _, _, _, _; split; [reflexivity|]; cbn [xl xh];
      split_and!; try done; by apply floor_row_fits.
  - intros h Hsp Hh. cbv delta [draw_rect_arr] beta. clamp_steps; try done.
    all: try by destruct s.
    all: try lia.
    all: simplify_eq.
    all: eexists _, _, _, _, _; split; [reflexivity|]; cbn [yl yh];
      split_and!; try done; by apply floor_row_fits.
Qed.

(** *** The exceptions of a run *)

Lemma draw_rect_arr_raises bbox rect_arr (E : exn → ClampStatic → Prop) s :
  (∀ k, missing_key rect_arr = Some k → E (KeyError k) s) →
  wp (draw_rect_arr bbox rect_arr) (λ _ _, True) E s.
Proof.
  intros HE. unfold wp.
  pose proof (draw_rect_arr_run bbox rect_arr s) as Hrun.
  destruct (missing_key rect_arr) as [k|].
  - rewrite Hrun. by apply HE.
  - by destruct Hrun as (e & -> & _).
Qed.

Lemma first_hop_raises used lp vdd vss s :
  wp (first_hop used lp vdd vss) (λ _ _, True)
    (λ e _, match e with
            | ValueError (RedoRouting l) => l = used + 1
            | ValueError (EmptySequence fn) => fn = "max" ∧ vdd = [] ∧ vss = []
            | IndexError => True
            | _ => False
            end) s.
Proof.
  cbv delta [first_hop] beta. clamp_steps; try done.
  all: match goal with Hnil : _ <$> _ ++ _ = [] |- _ =>
         apply fmap_nil_inv in Hnil; apply app_eq_nil in Hnil as [-> ->] end.
  all: by simplify_eq/=.
Qed.

Lemma route_up_raises ports layer s :
  wp (route_up ports layer) (λ _ _, True)
    (λ e _, e = ValueError (RedoRouting layer) ∨ e = IndexError) s.
Proof.
  cbv delta [route_up] beta. clamp_steps; by eauto.
Qed.

(** X14: the exceptions a run can end with.  A [KeyError] names a key
    that a dictionary lacks at the line that reads it: ['clamp'],
    ['top_layer'] (read only when the parameter is falsy),
    ['used_port_layer'], ['types'], the cell name, ['lib_name'],
    ['cell_name'], ['size'], ['ports'], ['rect_arr_list'], or the first key
    a rectangle-array spec lacks.  An [AssertionError] is the layer-order
    one, raised only when [top_layer <= used_port_layer]; a [ValueError] is
    either 'Redo routing on layer=l' with
    [used_port_layer < l <= top_layer] or the one of [max] on an empty
    sequence; the remaining case is [IndexError].  [min] never fails. *)
Theorem draw_layout_exceptions params tech_clamp :
  wp (draw_layout_tech params tech_clamp) (λ _ _, True)
    (λ e _, draw_layout_exn params tech_clamp e) init.
Proof.
  cbv delta [draw_layout_tech] beta. clamp_to_key.
  apply wp_bind, wp_getfield; [intros clamp -> | by intros ->].
  clamp_to_key. apply wp_bind, wp_top_layer.
  2:{ unfold tech_top_layer. intros Htop. left.
      destruct (truthy _); [done|]. by cbn in Htop. }
  intros top Htop. clamp_to_key.
  apply wp_bind, wp_getfield; [intros used Hused | intros Hused; right; by left].
  apply wp_bind, wp_assert; intros Hlt.
  2:{ exists clamp, top, used. apply Z.ltb_ge in Hlt. done. }
  apply Z.ltb_lt in Hlt.
  apply wp_bind, wp_getfield;
    [intros types Htypes | intros Htypes; right; right; by left].
  apply wp_bind, wp_getitem;
    [intros config Hconfig | intros Hconfig; do 3 right; left; by exists types].
  assert (∀ k, (k = "lib_name" ∧ cm_lib_name config = None ∨
                k = "cell_name" ∧ cm_cell_name config = None ∨
                k = "size" ∧ cm_size config = None ∨
                k = "ports" ∧ cm_ports config = None) →
               draw_layout_exn params (Some clamp) (KeyError k)) as Hcfg.
  { intros k Hk. do 4 right. left. by exists types, config. }
  apply wp_bind, wp_getfield; [intros static_lib _ | intros ?; apply Hcfg; eauto].
  apply wp_bind, wp_getfield; [intros static_cell _ | intros ?; apply Hcfg; eauto].
  apply wp_bind, wp_getfield; [intros size _ | intros ?; apply Hcfg; eauto].
  apply wp_bind, wp_getfield; [intros ports _ | intros ?; apply Hcfg; eauto 6].
  clamp_to_key.
  apply wp_bind, wp_getfield;
    [intros rect_arr_list Hlist | intros Hlist; do 5 right; by left].
  clamp_to_key. apply wp_bind.
  wp_loop_each (λ _ : ClampStatic, True).
  - intros ra s1 Hra _. apply draw_rect_arr_raises. intros k Hk.
    do 6 right. by exists rect_arr_list, ra.
  - intros s1 _. clamp_steps; [|done].
    cbv delta [route_supplies] beta. clamp_steps.
    eapply wp_mono; [apply first_hop_raises | |].
    + intros hop s2 _. clamp_steps.
      * wp_loop_fold (λ (_ : list Z) (_ : WireArray * WireArray)
                        (_ : ClampStatic), True).
        -- intros pre x post acc s3 Hxs _.
           eapply wp_mono; [apply route_up_raises | done |].
           intros e s4 [-> | ->]; [|done].
           assert (x ∈ range (tr_layer + 1) (port_layer + 1)) as Hx.
           { rewrite Hxs. apply elem_of_app. right. by left. }
           unfold range in Hx. apply elem_of_seqZ in Hx.
           exists clamp, top, used. split_and!; try done.
           all: subst tr_layer port_layer; lia.
        -- intros [p m] s3 _. clamp_steps.
           wp_loop_each (λ _ : ClampStatic, True).
           ++ intros b s4 _ _. by clamp_steps.
           ++ intros s4 _. by clamp_steps.
      * wp_loop_each (λ _ : ClampStatic, True).
        -- intros b s4 _ _. by clamp_steps.
        -- intros s4 _. by clamp_steps.
    + intros e s2. destruct e as [| [] | |]; try done.
      * intros ->. exists clamp, top, used. split_and!; try done.
        all: subst tr_layer port_layer; lia.
      * by intros (-> & _).
Qed.

(** *** The drawing calls of a hop *)

Lemma first_hop_run_calls used lp vdd vss s :
  wp (first_hop used lp vdd vss)
    (λ ports s', ∃ win idx_list plus_tid minus_tid,
       marks s' = marks s ++ [win; Tracks (used + 1) idx_list plus_tid minus_tid] ∧
       effects s' = effects s ++ first_hop_calls lp vdd vss plus_tid minus_tid ∧
       connected_warrs ((λ b, bbox_to_tracks_warr LOWER lp b plus_tid MIDDLE) <$> vdd)
         !! 0%nat = Some ports.1 ∧
       connected_warrs ((λ b, bbox_to_tracks_warr LOWER lp b minus_tid MIDDLE) <$> vss)
         !! 0%nat = Some ports.2)
    (λ e s', e ≠ IndexError → effects s' = effects s) s.
Proof.
  cbv delta [first_hop] beta. clamp_steps; try done.
  all: eexists _, vm_idx_list, plus_vm_tid, minus_vm_tid.
  all: unfold first_hop_calls; rewrite <- !app_assoc; done.
Qed.

Lemma route_up_run_calls ports layer s :
  wp (route_up ports layer)
    (λ ports' s', ∃ win idx_list plus_tid minus_tid,
       marks s' = marks s ++ [win; Tracks layer idx_list plus_tid minus_tid] ∧
       effects s' = effects s ++
         [ConnectToTracks ports.1 plus_tid MIDDLE;
          ConnectToTracks ports.2 minus_tid MIDDLE] ∧
       ports' = (to_tracks_warr ports.1 plus_tid MIDDLE,
                 to_tracks_warr ports.2 minus_tid MIDDLE))
    (λ _ s', effects s' = effects s) s.
Proof.
  cbv delta [route_up] beta. clamp_steps; try done.
  - eexists _, _idx_list, plus_tid, minus_tid. by rewrite <- !app_assoc.
  - unfold vss_idx in *. congruence.
Qed.

(** X15: a first hop that returns has made one [connect_bbox_to_tracks]
    call per VDD rectangle on the VDD TrackID, then one per VSS rectangle on
    the VSS TrackID, in the order of the pin lists, then [connect_wires] on
    the VDD wires and on the VSS wires; its two ports are the first wires
    these return.  A first hop that raises anything but [IndexError] has
    made no drawing call. *)
Theorem first_hop_connects used lp vdd vss s :
  wp (first_hop used lp vdd vss)
    (λ ports s', ∃ win idx_list plus_tid minus_tid,
       marks s' = marks s ++ [win; Tracks (used + 1) idx_list plus_tid minus_tid] ∧
       effects s' = effects s ++ first_hop_calls lp vdd vss plus_tid minus_tid ∧
       connected_warrs ((λ b, bbox_to_tracks_warr LOWER lp b plus_tid MIDDLE) <$> vdd)
         !! 0%nat = Some ports.1 ∧
       connected_warrs ((λ b, bbox_to_tracks_warr LOWER lp b minus_tid MIDDLE) <$> vss)
         !! 0%nat = Some ports.2)
    (λ e s', e ≠ IndexError → effects s' = effects s) s.
Proof. apply first_hop_run_calls. Qed.

(** X16: a hop above the first that returns has made exactly two
    [connect_to_tracks] calls, the VDD wire then the VSS wire, each onto its
    TrackID of that layer with [MinLenMode.MIDDLE], and returns the two new
    wires; a hop that raises has made no drawing call. *)
Theorem route_up_connects ports layer s :
  wp (route_up ports layer)
    (λ ports' s', ∃ win idx_list plus_tid minus_tid,
       marks s' = marks s ++ [win; Tracks layer idx_list plus_tid minus_tid] ∧
       effects s' = effects s ++
         [ConnectToTracks ports.1 plus_tid MIDDLE;
          ConnectToTracks ports.2 minus_tid MIDDLE] ∧
       ports' = (to_tracks_warr ports.1 plus_tid MIDDLE,
                 to_tracks_warr ports.2 minus_tid MIDDLE))
    (λ _ s', effects s' = effects s) s.
Proof. apply route_up_run_calls. Qed.

(** *** The drawing calls of a complete run *)

Lemma nc_run lp used (boxes : list BBox) s :
  for_each boxes (λ bbox,
    emit (AddRect lp bbox) ;; emit (AddPinPrimitive "NC" used bbox true)) s =
    (add_effects (nc_calls lp used boxes) s, inr tt).
Proof.
  revert s. induction boxes as [|b boxes IH]; intros s.
  - cbn. by rewrite add_effects_nil.
  - cbn [for_each]. unfold mbind, M_bind, bind, emit, modify in *.
    cbv beta iota. rewrite IH. unfold add_effects, nc_calls. cbn.
    by rewrite <- !app_assoc.
Qed.

(** X17: the drawing calls of a run that returns, in order: [add_instance]
    of the black box of the cell type, [set_size_from_bound_box] on the top
    layer with [round_up], one [add_rect_array] per spec, the calls of the
    first hop, [2 * (top_layer - used_port_layer - 1)] [connect_to_tracks]
    calls, [add_pin] of VDD then VSS with [connect=True], and for each NC
    rectangle an [add_rect] and a hidden [add_pin_primitive]. *)
Theorem draw_layout_calls params clamp_info :
  let used := ci_used_port_layer clamp_info in
  let top := resolve_top_layer params clamp_info in
  wp (draw_layout params clamp_info)
    (λ _ s', ∃ config lp rects plus_tid minus_tid ups plus minus,
       ci_types clamp_info !! p_cell_name params = Some config ∧
       get_lay_purp_list used !! 0%nat = Some lp ∧
       let inst := placed used config in
       effects s' =
         [AddInstance inst; SetSizeFromBoundBox top (bound_box inst) true] ++
         rects ++
         first_hop_calls lp (get_all_port_pins inst "VDD" used)
           (get_all_port_pins inst "VSS" used) plus_tid minus_tid ++
         ups ++
         [AddPin "VDD" plus true; AddPin "VSS" minus true] ++
         nc_calls lp used (get_all_port_pins inst "NC" used) ∧
       Forall2 draws (ci_rect_arr_list clamp_info) rects ∧
       Forall hop_call ups ∧
       Z.of_nat (length ups) = 2 * (top - used - 1))
    (λ _ _, True) init.
Proof.
  intros used top. cbv delta [draw_layout] beta. clamp_steps; try done.
  assert (used < top) as Hlt.
  { subst port_layer top_layer used_port_layer. fold top used in H0. lia. }
  eapply wp_mono; [apply rect_arrays_run | | done].
  intros [] s1 (rects & -> & Hrects). clamp_steps; [|done].
  cbv delta [route_supplies] beta. clamp_steps.
  eapply wp_mono; [apply first_hop_run_calls | | done].
  intros hop s2 (win & idx & ptid & mtid & _ & Hes & _).
  cbn [effects add_effects init app] in Hes. clamp_steps.
  - wp_loop_fold (λ (pre : list Z) (_ : WireArray * WireArray) s',
                    ∃ ups, effects s' = effects s2 ++ ups ∧ Forall hop_call ups ∧
                           length ups = (2 * length pre)%nat).
    + exists []. by rewrite app_nil_r.
    + intros pre x post acc s3 _ (ups & Hups & Hall & Hlen).
      eapply wp_mono; [apply route_up_run_calls | | done].
      intros acc' s4 (w & il & pt & mt & _ & Hs4 & _).
      exists (ups ++ [ConnectToTracks acc.1 pt MIDDLE; ConnectToTracks acc.2 mt MIDDLE]).
      split_and!.
      * by rewrite Hs4, Hups, <- app_assoc.
      * apply Forall_app. split; [done|]. by repeat constructor.
      * rewrite !length_app, Hlen. cbn. lia.
    + intros [p m] s3 (ups & Hups & Hall & Hlen). clamp_steps.
      unfold wp. rewrite nc_run. cbn.
      exists a, a0, rects, ptid, mtid, ups, p, m. split_and!; try done.
      * rewrite Hups, Hes. rewrite <- ?app_assoc. cbn [app].
        by rewrite <- ?app_assoc.
      * rewrite Hlen. unfold range. rewrite length_seqZ.
        apply Z.ltb_lt in Heqb. subst tr_layer port_layer top_layer used_port_layer.
        fold used top. lia.
  - unfold wp. rewrite nc_run. cbn.
    exists a, a0, rects, ptid, mtid, [], w, w0. split_and!; try done.
    + rewrite Hes. rewrite <- ?app_assoc. cbn [app].
      by rewrite <- ?app_assoc.
    + apply Z.ltb_ge in Heqb. subst tr_layer port_layer top_layer used_port_layer.
      fold used top in Heqb. cbn. lia.
Qed.

(** *** Windows and their tracks *)










(** *** Edge cases *)

(** X19: with no VDD and no VSS pin rectangle the first hop raises the
    [ValueError] of [max] on an empty sequence, before any mark or drawing
    call; and the first hop raises an empty-sequence error only then, and
    only from [max]. *)
Theorem no_pin_rectangles used lp vdd vss s :
  (vdd = [] → vss = [] →
     first_hop used lp vdd vss s = (s, inl (ValueError (EmptySequence "max")))) ∧
  (∀ fn, (first_hop used lp vdd vss s).2 = inl (ValueError (EmptySequence fn)) →
     fn = "max" ∧ vdd = [] ∧ vss = []).
Proof.
  split.
  - intros -> ->. unfold first_hop.
    destruct (get_wire_bounds _ _ _) as [bound_l bound_h].
    by destruct (decide _).
  - intros fn Hfn. pose proof (first_hop_raises used lp vdd vss s) as Hwp.
    unfold wp in Hwp. destruct (first_hop used lp vdd vss s) as [s' [e|a]]; [|done].
    cbn in Hfn. by simplify_eq.
Qed.

(** X20: with [used_port_layer] below the top layer and a cell name that
    the technology's [types] lacks, the run raises [KeyError] for the cell
    name, having set the two layer attributes and drawn nothing. *)
Theorem missing_cell_type params clamp_info :
  let top := resolve_top_layer params clamp_info in
  ci_used_port_layer clamp_info < top →
  ci_types clamp_info !! p_cell_name params = None →
  draw_layout params clamp_info init =
    ({| _conn_layer := top; _top_layer := top; sch_params := None;
        effects := []; marks := [] |},
     inl (KeyError (p_cell_name params))).
Proof.
  intros top Hlt Hnone. unfold draw_layout. fold top.
  unfold set_top_layer, set_conn_layer, getitem. rewrite Hnone. run_m.
  by destruct (Z.ltb_spec (ci_used_port_layer clamp_info) top); [|lia].
Qed.

End More.

Lemma pitched_rect_arr_witness :
  wp (draw_rect_arr (mkBBox 0 0 100 100) ex_rect_arr)
    (λ _ s', ∃ lp box nx ny sx,
       effects s' = effects init ++ [AddRectArray lp box nx ny sx 20] ∧
       yl box = 0 + margin ex_rect_arr "yl" ∧ yh box = yl box + 10 ∧
       row_fits (yl box) (100 + margin ex_rect_arr "yh") 10 20 ny)
    (λ _ s', s' = init) init.
Proof.
  apply (pitched_rect_arr (mkBBox 0 0 100 100) ex_rect_arr init);
    [reflexivity | reflexivity].
Defined.

Lemma no_pin_rectangles_witness :
  @first_hop uniform 2 ("metal", "drawing") [] [] init =
    (init, inl (ValueError (EmptySequence "max"))).
Proof.
  apply (@no_pin_rectangles uniform 2 ("metal", "drawing") [] [] init);
    reflexivity.
Defined.

Lemma missing_cell_type_witness :
  @draw_layout uniform (mkParams "xbase" "diode" None) (ex_clamp_info 2 4) init =
    ({| _conn_layer := 4; _top_layer := 4; sch_params := None;
        effects := []; marks := [] |},
     inl (KeyError "diode")).
Proof.
  apply (@missing_cell_type uniform (mkParams "xbase" "diode" None)
           (ex_clamp_info 2 4)); reflexivity.
Defined.

End ClampMoreFacts.

(** ** The routed layers and the nets on them *)

Module RoutingFacts.
Import Clamp ClampMore ClampFacts ClampMoreFacts.

Lemma wp_conj {S A} (m : M S A) (Q Q' : A → S → Prop) (E E' : exn → S → Prop) s :
  wp m Q E s → wp m Q' E' s →
  wp m (λ a s', Q a s' ∧ Q' a s') (λ e s', E e s' ∧ E' e s') s.
Proof. unfold wp. by destruct (m s) as [s' [e|a]]. Qed.

Lemma prefix_bind {A B} (f : A → list B) (l k : list A) :
  l `prefix_of` k → (l ≫= f) `prefix_of` (k ≫= f).
Proof. intros [k' ->]. rewrite bind_app. by apply prefix_app_r. Qed.

Lemma call_layers_bbox lp tid (xs : list BBox) :
  omap call_layer ((λ b, ConnectBBoxToTracks LOWER lp b tid MIDDLE) <$> xs) =
    replicate (length xs) (layer_id tid).
Proof. induction xs as [|x xs IH]; [done|]. cbn. by rewrite IH. Qed.

Lemma track_calls_bbox lp tid (xs : list BBox) :
  omap track_call ((λ b, ConnectBBoxToTracks LOWER lp b tid MIDDLE) <$> xs) =
    bbox_calls lp xs tid.
Proof. induction xs as [|x xs IH]; [done|]. cbn. by rewrite IH. Qed.

Lemma tids_bbox lp tid (xs : list BBox) :
  omap (λ e, match e with AddPin net warr _ => Some (net, warr) | _ => None end)
    ((λ b, ConnectBBoxToTracks LOWER lp b tid MIDDLE) <$> xs) = [].
Proof. by induction xs. Qed.

Ltac calls_simpl :=
  lazymatch goal with
  | |- wp _ _ _ _ => idtac
  | |- _ =>
      unfold call_layers, track_calls, tids, pins; state_simpl;
      rewrite ?omap_app; cbn [omap list_omap call_layer track_call];
      rewrite ?call_layers_bbox, ?track_calls_bbox, ?tids_bbox, ?app_nil_r
  end.

Section Layers.
Context `{Host}.

Lemma draw_rect_arr_calls bbox rect_arr (P : list Effect → list Mark → Prop) s :
  P (track_calls s) (marks s) → call_layers s = [] →
  wp (draw_rect_arr bbox rect_arr)
    (λ _ s', P (track_calls s') (marks s') ∧ call_layers s' = [])
    (λ _ s', P (track_calls s') (marks s') ∧ call_layers s' = []) s.
Proof.
  intros HP Hl. cbv delta [draw_rect_arr] beta. clamp_steps; calls_simpl.
  all: fold (track_calls s); fold (call_layers s); by rewrite ?Hl.
Qed.

Lemma first_hop_layers used lp vdd vss s :
  wp (first_hop used lp vdd vss)
    (λ _ s', call_layers s' =
               call_layers s ++ replicate (length vdd + length vss) (used + 1) ∧
             (0 < length vdd + length vss)%nat)
    (λ _ s', call_layers s' = call_layers s ∨
             call_layers s' =
               call_layers s ++ replicate (length vdd + length vss) (used + 1)) s.
Proof.
  cbv delta [first_hop] beta. clamp_steps; calls_simpl.
  all: fold (call_layers s).
  all: try by left.
  all: try (unfold vss_idx in *; congruence).
  all: subst plus_vm_tid minus_vm_tid; cbn [layer_id]; subst tr_layer.
  all: rewrite <- app_assoc, <- replicate_add.
  all: try by right.
  all: split; [done|].
  all: match goal with Hmax : max_list (_ <$> ?l ++ ?l') = Some _ |- _ =>
         destruct l, l'; cbn; try lia; by cbn in Hmax end.
Qed.

Lemma route_up_layers ports layer s :
  wp (route_up ports layer)
    (λ _ s', call_layers s' = call_layers s ++ [layer; layer])
    (λ _ s', call_layers s' = call_layers s) s.
Proof.
  cbv delta [route_up] beta. clamp_steps; calls_simpl.
  all: fold (call_layers s).
  all: try done.
  all: try (unfold vss_idx in *; congruence).
  by rewrite <- app_assoc.
Qed.

Lemma draw_layout_layers params clamp_info :
  let used := ci_used_port_layer clamp_info in
  let top := resolve_top_layer params clamp_info in
  let n := pin_count params clamp_info in
  wp (draw_layout params clamp_info)
    (λ _ st, call_layers st = hop_layers n used top ∧ (0 < n)%nat ∧ used < top)
    (λ _ st, call_layers st `prefix_of` hop_layers n used top) init.
Proof.
  intros used top n. cbv delta [draw_layout] beta. clamp_steps; calls_simpl.
  all: try apply prefix_nil.
  assert (used < top) as Hlt.
  { subst port_layer top_layer used_port_layer. fold top used in H0. lia. }
  wp_loop_each (λ s', call_layers s' = []).
  { intros ra s1 _ Hs1.
    eapply wp_mono;
      [apply (draw_rect_arr_calls _ _ (λ _ _, True)); done | |];
      intros ? s2 [_ Hs2]; [done | rewrite Hs2; apply prefix_nil]. }
  intros s1 Hs1. clamp_steps; calls_simpl.
  2:{ fold (call_layers s1). rewrite Hs1. apply prefix_nil. }
  assert (n = length vdd_hm + length vss_hm)%nat as Hn.
  { subst n. unfold pin_count. subst cell_name. by rewrite H1. }
  cbv delta [route_supplies] beta. clamp_steps.
  eapply wp_mono; [apply first_hop_layers | |].
  2:{ intros e s2. rewrite Hs1, <- Hn. cbn [app].
      intros [-> | ->]; [apply prefix_nil | by apply prefix_app_r]. }
  intros hop s2 [Hs2 Hpos]. rewrite Hs1, <- Hn in Hs2. cbn [app] in Hs2.
  rewrite <- Hn in Hpos. clamp_steps.
  - wp_loop_fold (λ (pre : list Z) (_ : WireArray * WireArray) s',
                    call_layers s' =
                      replicate n (used + 1) ++ (pre ≫= λ l, [l; l])).
    + by rewrite app_nil_r.
    + intros pre x post acc s3 Hxs Hs3.
      eapply wp_mono; [apply route_up_layers | |].
      * intros acc' s4 ->. by rewrite Hs3, bind_app, <- app_assoc.
      * intros e s4 ->. rewrite Hs3. apply prefix_app, prefix_bind.
        unfold range in Hxs.
        replace (seqZ (used + 2) (top - used - 1))
          with (pre ++ x :: post); [by apply prefix_app_r|].
        rewrite <- Hxs. f_equal; subst tr_layer port_layer top_layer; lia.
    + intros [p m] s3 Hs3. clamp_steps.
      wp_loop_each (λ s', call_layers s' = hop_layers n used top).
      * calls_simpl. fold (call_layers s3). rewrite Hs3. unfold hop_layers, range.
        do 3 f_equal; subst tr_layer port_layer top_layer; lia.
      * intros b s4 _ Hs4. clamp_steps. calls_simpl. by fold (call_layers s4).
      * intros s4 Hs4. clamp_steps. calls_simpl. by fold (call_layers s4).
  - wp_loop_each (λ s', call_layers s' = hop_layers n used top).
    + calls_simpl. fold (call_layers s2). rewrite Hs2. unfold hop_layers.
      apply Z.ltb_ge in Heqb.
      replace (top - used - 1) with 0
        by (subst tr_layer port_layer top_layer used_port_layer; fold top used in Heqb; lia).
      by rewrite app_nil_r.
    + intros b s4 _ Hs4. clamp_steps. calls_simpl. by fold (call_layers s4).
    + intros s4 Hs4. clamp_steps. calls_simpl. by fold (call_layers s4).
Qed.

Lemma elem_of_hop_layers (n : nat) (used top l : Z) :
  (0 < n)%nat → used < top →
  l ∈ hop_layers n used top ↔ used < l ≤ top.
Proof.
  intros Hn Hlt. unfold hop_layers.
  rewrite elem_of_app, elem_of_replicate, list_elem_of_bind.
  split.
  - intros [[-> _] | (l' & Hl & Hl')]; [lia|].
    apply elem_of_seqZ in Hl'.
    apply elem_of_cons in Hl as [-> | Hl]; [lia|].
    apply list_elem_of_singleton in Hl as ->. lia.
  - intros Hl. destruct (decide (l = used + 1)) as [-> | Hne].
    + left. split; [done | lia].
    + right. exists l. split; [by left|]. apply elem_of_seqZ. lia.
Qed.

(** C6: the drawing calls that take a TrackID run through the layers
    [used_port_layer + 1], ..., [top_layer] in increasing order, each
    layer in one block: one call per pin rectangle on the first, at least
    one, and two calls on each layer above; so every layer of that range is
    routed, none outside it, none twice.  The two TrackIDs of a layer are
    allocated in the same order.  When the run stops with an exception, the
    calls made and the layers allocated are a prefix of these. *)
Theorem routing_layers params clamp_info :
  let used := ci_used_port_layer clamp_info in
  let top := resolve_top_layer params clamp_info in
  let n := pin_count params clamp_info in
  wp (draw_layout params clamp_info)
    (λ _ st, routed st = seqZ (used + 1) (top - used) ∧
             call_layers st = hop_layers n used top ∧ (0 < n)%nat ∧
             ∀ l, l ∈ call_layers st ↔ used < l ≤ top)
    (λ _ st, routed st `prefix_of` seqZ (used + 1) (top - used) ∧
             call_layers st `prefix_of` hop_layers n used top) init.
Proof.
  intros used top n.
  eapply wp_mono;
    [apply wp_conj; [apply draw_layout_routed | apply draw_layout_layers] | | done].
  intros [] st (Hr & Hl & Hn & Hlt). split_and!; try done.
  intros l. rewrite Hl. by apply elem_of_hop_layers.
Qed.

End Layers.

Section NetCalls.
Context `{Host}.









End NetCalls.


Section Order.
Context `{Host}.
(* a wire drawn on a TrackID carries it *)
Hypothesis Htid : ∀ dir lp box tid mode,
  track_id (bbox_to_tracks_warr dir lp box tid mode) = tid.
(* merging the wires of one TrackID does not depend on their order *)
Hypothesis Hmerge : ∀ tid warrs warrs',
  Forall (λ w, track_id w = tid) warrs → warrs ≡ₚ warrs' →
  head (connected_warrs warrs) = head (connected_warrs warrs').


End Order.


End RoutingFacts.
